(** * otv_designer: maneuver-cost kernel, transfer selector, LTAN drift
      solver and vehicle sizing of [otv_flight_dynamics.py]

    Python floats are embedded as real numbers ([R]): every formula is
    read in exact arithmetic (no rounding, no overflow).  What Python
    raises is kept: a division by zero raises [ZeroDivisionError], and
    [math.sqrt] of a negative number and [math.acos] outside [-1, 1]
    raise [ValueError]; a function that can raise returns a [result].
    [float('inf')] is the extra point [PosInf] of [xreal]. *)

From Stdlib Require Import Reals Lra Lia ZArith List Bool.
From Stdlib Require Import Sorted.
Import ListNotations.
Open Scope R_scope.

(** ** Exceptions *)

Inductive PyExc : Set :=
| ZeroDivisionError
| ValueError.

Inductive result (A : Type) : Type :=
| Ok (a : A)
| Raise (e : PyExc).

Arguments Ok {A} a.
Arguments Raise {A} e.

Definition bind {A B : Type} (m : result A) (k : A -> result B) : result B :=
  match m with
  | Ok a => k a
  | Raise e => Raise e
  end.

Notation "x <- m ;; k" := (bind m (fun x => k))
  (at level 61, m at next level, right associativity).

(** A Python [for] loop whose body may raise: the state is threaded
    through the items in order, and the first exception ends the loop. *)
Fixpoint for_each {A S : Type} (body : S -> A -> result S)
  (items : list A) (s : S) : result S :=
  match items with
  | [] => Ok s
  | x :: rest => s' <- body s x ;; for_each body rest s'
  end.

(** ** Arithmetic of Python floats, over the reals *)

(** [x / y] *)
Definition fdiv (x y : R) : result R :=
  if Req_dec_T y 0 then Raise ZeroDivisionError else Ok (x / y).

(** [math.sqrt(x)] *)
Definition math_sqrt (x : R) : result R :=
  if Rlt_dec x 0 then Raise ValueError else Ok (sqrt x).

(** [math.acos(x)] *)
Definition math_acos (x : R) : result R :=
  if Rle_dec (Rabs x) 1 then Ok (acos x) else Raise ValueError.

(** [math.radians(x)] and [math.degrees(x)] *)
Definition math_radians (x : R) : R := x * (PI / 180).
Definition math_degrees (x : R) : R := x * (180 / PI).

(** [x % y] for a divisor that is not zero: Python's remainder has the
    sign of the divisor, [x - y * floor (x / y)]. *)
Definition floor_mod (x y : R) : R := x - y * IZR (Zfloor (x / y)).

(** [float('inf')] and the comparison [x < bound] against it. *)
Inductive xreal : Set :=
| Finite (r : R)
| PosInf.

Definition lt_xreal (x : R) (bound : xreal) : bool :=
  match bound with
  | Finite b => if Rlt_dec x b then true else false
  | PosInf => true
  end.

(** [range(start, stop, step)] for a positive step. *)
Definition py_range (start stop step : Z) : list Z :=
  map (fun k => (start + step * Z.of_nat k)%Z)
      (seq 0 (Z.to_nat ((stop - start + step - 1) / step))).

(** ** Constants *)

Definition MU_EARTH : R := 398600.4418.
Definition R_EARTH : R := 6371.0.

(** ** OrbitalMechanicsKernel *)

Definition orbital_velocity (radius : R) : result R :=
  q <- fdiv MU_EARTH radius ;;
  math_sqrt q.

Definition hohmann_delta_v (r1 r2 : R) : result R :=
  let a_transfer := (r1 + r2) / 2 in
  v1 <- orbital_velocity r1 ;;
  v2 <- orbital_velocity r2 ;;
  q1 <- fdiv (2 * MU_EARTH * r2) (r1 * (r1 + r2)) ;;
  v_transfer1 <- math_sqrt q1 ;;
  q2 <- fdiv (2 * MU_EARTH * r1) (r2 * (r1 + r2)) ;;
  v_transfer2 <- math_sqrt q2 ;;
  let delta_v1 := Rabs (v_transfer1 - v1) in
  let delta_v2 := Rabs (v2 - v_transfer2) in
  Ok (delta_v1 + delta_v2).

Definition bielliptic_delta_v (r1 r2 r_b : R) : result R :=
  v1 <- orbital_velocity r1 ;;
  q1 <- fdiv (2 * MU_EARTH * r_b) (r1 * (r1 + r_b)) ;;
  v_transfer1 <- math_sqrt q1 ;;
  let delta_v1 := Rabs (v_transfer1 - v1) in
  qb1 <- fdiv (2 * MU_EARTH * r1) (r_b * (r1 + r_b)) ;;
  v_b1 <- math_sqrt qb1 ;;
  qb2 <- fdiv (2 * MU_EARTH * r2) (r_b * (r2 + r_b)) ;;
  v_b2 <- math_sqrt qb2 ;;
  let delta_v2 := Rabs (v_b2 - v_b1) in
  v2 <- orbital_velocity r2 ;;
  q2 <- fdiv (2 * MU_EARTH * r_b) (r2 * (r2 + r_b)) ;;
  v_transfer2 <- math_sqrt q2 ;;
  let delta_v3 := Rabs (v2 - v_transfer2) in
  Ok (delta_v1 + delta_v2 + delta_v3).

(** ** TransferStrategySelector *)

Inductive TransferMethod : Set :=
| Hohmann
| BiElliptic.

Record TransferPlan : Set := mkTransferPlan {
  method : TransferMethod;
  delta_v_kms : R
}.

(** The body of the loop over the multipliers: the state is
    [best_bielliptic_dv]. *)
Definition bielliptic_step (r1 r2 : R) (best_bielliptic_dv : xreal)
  (multiplier : Z) : result xreal :=
  let r_b := IZR multiplier * Rmax r1 r2 in
  dv_bielliptic <- bielliptic_delta_v r1 r2 r_b ;;
  if lt_xreal dv_bielliptic best_bielliptic_dv
  then Ok (Finite dv_bielliptic)
  else Ok best_bielliptic_dv.

Definition choose_transfer (initial_altitude_km final_altitude_km : R)
  : result TransferPlan :=
  let r1 := R_EARTH + initial_altitude_km in
  let r2 := R_EARTH + final_altitude_km in
  dv_hohmann <- hohmann_delta_v r1 r2 ;;
  best_bielliptic_dv <-
    for_each (bielliptic_step r1 r2) [2; 5; 10]%Z PosInf ;;
  match best_bielliptic_dv with
  | Finite best =>
      if Rlt_dec best dv_hohmann
      then Ok (mkTransferPlan BiElliptic best)
      else Ok (mkTransferPlan Hohmann dv_hohmann)
  | PosInf => Ok (mkTransferPlan Hohmann dv_hohmann)
  end.

(** ** InclinationChangeCalculator *)

Definition inclination_change_delta_v (altitude_km delta_inclination_deg : R)
  : result R :=
  let r := R_EARTH + altitude_km in
  v <- orbital_velocity r ;;
  let delta_i_rad := math_radians delta_inclination_deg in
  let delta_v := 2 * v * sin (delta_i_rad / 2) in
  Ok delta_v.

(** ** LTANDriftSolver *)

Record LTANSolution : Set := mkLTANSolution {
  new_altitude_km : Z;
  new_inclination_deg : R;
  total_delta_v_kms : R;
  required_drift_deg_per_day : R;
  duration_days : R
}.

Definition J2 : R := 1.08263e-3.

(** The altitudes the solver tries: [range(400, 900, 5)]. *)
Definition altitude_grid : list Z := py_range 400 900 5.

(** [delta_ltan_deg] after the normalisation: the LTAN difference in
    degrees, [(target - initial) * 15], reduced modulo 360. *)
Definition delta_ltan_deg (initial_ltan_hours target_ltan_hours : R) : R :=
  let delta_ltan_deg := (target_ltan_hours - initial_ltan_hours) * 15 in
  floor_mod (delta_ltan_deg + 180) 360 - 180.

(** [cos_i] of one candidate altitude [h]: the first half of the loop
    body, down to the test [abs(cos_i) <= 1]. *)
Definition candidate_cos_i (required_drift_rate : R) (h : Z) : result R :=
  let a := R_EARTH + IZR h in
  q <- fdiv MU_EARTH (a ^ 3) ;;
  n <- math_sqrt q ;;
  drift_factor <- fdiv (-1.5 * J2 * (R_EARTH ^ 2) * n) (a ^ 2) ;;
  let drift_rate_rad_per_sec := math_radians required_drift_rate / 86400 in
  fdiv drift_rate_rad_per_sec drift_factor.

(** The state of the search: [best_solution] and [min_dv]. *)
Definition SearchState : Set := (option LTANSolution * xreal)%type.

(** The body of the loop over the altitudes. *)
Definition ltan_step (initial_altitude_km required_drift_rate duration_days : R)
  (st : SearchState) (h : Z) : result SearchState :=
  let '(best_solution, min_dv) := st in
  cos_i <- candidate_cos_i required_drift_rate h ;;
  if Rle_dec (Rabs cos_i) 1 then
    i_rad <- math_acos cos_i ;;
    let i_deg := math_degrees i_rad in
    let current_r := R_EARTH + initial_altitude_km in
    let new_r := R_EARTH + IZR h in
    let delta_i_rad := Rabs (i_rad - math_radians 98.6) in
    dv_alt <- hohmann_delta_v current_r new_r ;;
    dv_inc <- inclination_change_delta_v (IZR h) (math_degrees delta_i_rad) ;;
    let total_dv := dv_alt + dv_inc in
    if lt_xreal total_dv min_dv then
      Ok (Some (mkLTANSolution h i_deg total_dv required_drift_rate
                               duration_days),
          Finite total_dv)
    else Ok (best_solution, min_dv)
  else Ok (best_solution, min_dv).

Definition ltan_drift_adjustment
  (initial_ltan_hours target_ltan_hours initial_altitude_km duration_days : R)
  : result (option LTANSolution) :=
  let delta_ltan_deg := delta_ltan_deg initial_ltan_hours target_ltan_hours in
  required_drift_rate <- fdiv delta_ltan_deg duration_days ;;
  st <- for_each
          (ltan_step initial_altitude_km required_drift_rate duration_days)
          altitude_grid (None, PosInf) ;;
  Ok (fst st).

(** ** VehicleSizingEngine *)

Record VehicleConfiguration : Set := mkVehicleConfiguration {
  payload_mass_kg : R;
  structural_mass_kg : R;
  propellant_mass_kg : R;
  total_mass_kg : R;
  payload_fraction : R;
  propellant_fraction : R;
  structural_fraction : R;
  thrust_N : R;
  thrust_to_weight_ratio : R;
  isp_sec : R
}.

Definition g0 : R := 9.80665.

(** The defaults of the optional arguments of [otv_sizing]. *)
Definition default_isp_sec : R := 320.
Definition default_structural_mass_fraction : R := 0.1.
Definition default_thrust_to_weight_ratio : R := 0.3.

Definition otv_sizing
  (payload_mass_kg total_delta_v_kms isp_sec structural_mass_fraction
   thrust_to_weight_ratio : R) : result VehicleConfiguration :=
  let delta_v := total_delta_v_kms * 1000 in
  dry_mass <- fdiv payload_mass_kg (1 - structural_mass_fraction) ;;
  e <- fdiv delta_v (isp_sec * g0) ;;
  let m0 := dry_mass * exp e in
  let propellant_mass := m0 - dry_mass in
  let structural_mass := dry_mass - payload_mass_kg in
  let weight := m0 * g0 in
  let thrust := weight * thrust_to_weight_ratio in
  payload_fraction <- fdiv payload_mass_kg m0 ;;
  propellant_fraction <- fdiv propellant_mass m0 ;;
  structural_fraction <- fdiv structural_mass m0 ;;
  Ok (mkVehicleConfiguration payload_mass_kg structural_mass propellant_mass
        m0 payload_fraction propellant_fraction structural_fraction thrust
        thrust_to_weight_ratio isp_sec).

(** ** The script below the functions

    The module ends with the Streamlit script that reads the eight
    numbers of the form, calls the three maneuver functions in turn,
    adds their delta-v into [delta_v_budget] and sizes the vehicle for
    the sum.  The numbers read by [st.number_input] are the arguments
    here; the [print] and [st.write] calls only show values already
    computed and are left out, except that [result['new_altitude_km']]
    on the [None] of a search without solution raises [TypeError]. *)

Inductive ScriptExc : Set :=
| Propagated (e : PyExc)
| TypeError.

Inductive outcome (A : Type) : Type :=
| Done (a : A)
| Failed (e : ScriptExc).

Arguments Done {A} a.
Arguments Failed {A} e.

Definition and_then {A B : Type} (m : outcome A) (k : A -> outcome B)
  : outcome B :=
  match m with
  | Done a => k a
  | Failed e => Failed e
  end.

Notation "x <~ m ;; k" := (and_then m (fun x => k))
  (at level 61, m at next level, right associativity).

(** A call of one of the functions above: its exception is the script's. *)
Definition call {A : Type} (m : result A) : outcome A :=
  match m with
  | Ok a => Done a
  | Raise e => Failed (Propagated e)
  end.

(** [result[key]] on what [ltan_drift_adjustment] returned. *)
Definition subscript (result : option LTANSolution) : outcome LTANSolution :=
  match result with
  | Some solution => Done solution
  | None => Failed TypeError
  end.

Definition designer_script
  (h1 h2 h_incl inc h_ltan ltan_i ltan_f ltan_dur : R)
  : outcome VehicleConfiguration :=
  let delta_v_budget := 0 in
  result <~ call (choose_transfer h1 h2) ;;
  let delta_v_budget := delta_v_budget + delta_v_kms result in
  dv_inc <~ call (inclination_change_delta_v h_incl inc) ;;
  let delta_v_budget := delta_v_budget + dv_inc in
  result <~ call (ltan_drift_adjustment ltan_i ltan_f h_ltan ltan_dur) ;;
  solution <~ subscript result ;;
  let delta_v_budget := delta_v_budget + total_delta_v_kms solution in
  call (otv_sizing 500 delta_v_budget 300 default_structural_mass_fraction
          default_thrust_to_weight_ratio).

(** * Closed forms used in the statements *)

(** The value of a Hohmann transfer between two positive radii. *)
Definition hohmann_value (r1 r2 : R) : R :=
  Rabs (sqrt (2 * MU_EARTH * r2 / (r1 * (r1 + r2))) - sqrt (MU_EARTH / r1))
  + Rabs (sqrt (MU_EARTH / r2) - sqrt (2 * MU_EARTH * r1 / (r2 * (r1 + r2)))).

(** The value of a bi-elliptic transfer through [r_b], all radii positive. *)
Definition bielliptic_value (r1 r2 r_b : R) : R :=
  Rabs (sqrt (2 * MU_EARTH * r_b / (r1 * (r1 + r_b))) - sqrt (MU_EARTH / r1))
  + Rabs (sqrt (2 * MU_EARTH * r2 / (r_b * (r2 + r_b)))
          - sqrt (2 * MU_EARTH * r1 / (r_b * (r1 + r_b))))
  + Rabs (sqrt (MU_EARTH / r2) - sqrt (2 * MU_EARTH * r_b / (r2 * (r2 + r_b)))).

(** The selector as the specification words it: the cheapest of the
    three bi-elliptic candidates, then the cheaper of that and Hohmann. *)
Definition best_bielliptic (r1 r2 : R) : result R :=
  b2 <- bielliptic_delta_v r1 r2 (2 * Rmax r1 r2) ;;
  b5 <- bielliptic_delta_v r1 r2 (5 * Rmax r1 r2) ;;
  b10 <- bielliptic_delta_v r1 r2 (10 * Rmax r1 r2) ;;
  Ok (Rmin (Rmin b2 b5) b10).

Definition cheaper_transfer (initial_altitude_km final_altitude_km : R)
  : result TransferPlan :=
  let r1 := R_EARTH + initial_altitude_km in
  let r2 := R_EARTH + final_altitude_km in
  dv_hohmann <- hohmann_delta_v r1 r2 ;;
  best <- best_bielliptic r1 r2 ;;
  Ok (if Rlt_dec best dv_hohmann
      then mkTransferPlan BiElliptic best
      else mkTransferPlan Hohmann dv_hohmann).

(** The value of a plane change of [delta_inclination_deg] degrees at an
    altitude whose radius is positive. *)
Definition inclination_value (altitude_km delta_inclination_deg : R) : R :=
  2 * sqrt (MU_EARTH / (R_EARTH + altitude_km))
  * sin (math_radians delta_inclination_deg / 2).

(** [cos_i] of a candidate altitude of positive radius. *)
Definition cos_i_value (required_drift_rate : R) (h : Z) : R :=
  let a := R_EARTH + IZR h in
  math_radians required_drift_rate / 86400
  / (-1.5 * J2 * (R_EARTH ^ 2) * sqrt (MU_EARTH / a ^ 3) / a ^ 2).

(** A candidate altitude is feasible when some inclination realises the
    required drift there: its [cos_i] lies in [-1, 1]. *)
Definition feasible (required_drift_rate : R) (h : Z) : Prop :=
  exists cos_i,
    candidate_cos_i required_drift_rate h = Ok cos_i /\ Rabs cos_i <= 1.

(** The cost of a candidate as the specification words it: the Hohmann
    transfer from the current radius to the candidate's, plus the plane
    change from 98.6 degrees to [arccos cos_i], the angle in degrees. *)
Definition candidate_cost (initial_altitude_km required_drift_rate : R)
  (h : Z) : result R :=
  cos_i <- candidate_cos_i required_drift_rate h ;;
  dv_alt <- hohmann_delta_v (R_EARTH + initial_altitude_km)
                            (R_EARTH + IZR h) ;;
  dv_inc <- inclination_change_delta_v (IZR h)
              (Rabs (math_degrees (acos cos_i) - 98.6)) ;;
  Ok (dv_alt + dv_inc).

(** What the search knows after the altitudes [seen]: either nothing
    feasible was met and the state is still [(None, inf)], or the state
    holds a feasible altitude of [seen], its cost, and no feasible
    altitude of [seen] is cheaper. *)
Definition search_invariant (initial_altitude_km required_drift_rate
  duration : R) (seen : list Z) (st : SearchState) : Prop :=
  match st with
  | (None, PosInf) =>
      forall h, In h seen -> ~ feasible required_drift_rate h
  | (Some s, Finite min_dv) =>
      min_dv = total_delta_v_kms s
      /\ In (new_altitude_km s) seen
      /\ (exists cos_i,
            candidate_cos_i required_drift_rate (new_altitude_km s) = Ok cos_i
            /\ Rabs cos_i <= 1
            /\ new_inclination_deg s = math_degrees (acos cos_i))
      /\ candidate_cost initial_altitude_km required_drift_rate
            (new_altitude_km s) = Ok (total_delta_v_kms s)
      /\ required_drift_deg_per_day s = required_drift_rate
      /\ duration_days s = duration
      /\ 0 < R_EARTH + initial_altitude_km
      /\ (forall h, In h seen -> feasible required_drift_rate h ->
            exists c,
              candidate_cost initial_altitude_km required_drift_rate h = Ok c
              /\ total_delta_v_kms s <= c)
  | _ => False
  end.

(** The two speeds every burn of the kernel compares: the speed of the
    circular orbit of radius [r], and the speed at radius [r] on the
    ellipse whose other apsis is [r']. *)
Definition circular_speed (r : R) : R := sqrt (MU_EARTH / r).

Definition transfer_speed (r r' : R) : R :=
  sqrt (2 * MU_EARTH * r' / (r * (r + r'))).

(** The size of the J2 drift factor of the loop at the radius [a]: the
    nodal drift, in rad/s, of an equatorial orbit there. *)
Definition drift_factor_magnitude (a : R) : R :=
  1.5 * J2 * (R_EARTH ^ 2) * sqrt (MU_EARTH / a ^ 3) / a ^ 2.

(** What the search also knows after the altitudes [seen], because a
    candidate only replaces the best one when strictly cheaper: every
    feasible altitude tried before the one held is strictly dearer. *)
Definition first_minimum_invariant (initial_altitude_km required_drift_rate : R)
  (seen : list Z) (st : SearchState) : Prop :=
  match fst st with
  | Some s =>
      exists tried_before tried_after,
        seen = tried_before ++ new_altitude_km s :: tried_after
        /\ forall h, In h tried_before -> feasible required_drift_rate h ->
             exists c,
               candidate_cost initial_altitude_km required_drift_rate h = Ok c
               /\ total_delta_v_kms s < c
  | None => True
  end.

(** * Properties *)

(** ** The arithmetic primitives *)

Lemma MU_EARTH_pos : 0 < MU_EARTH.
Proof. unfold MU_EARTH; lra. Qed.

Lemma R_EARTH_pos : 0 < R_EARTH.
Proof. unfold R_EARTH; lra. Qed.

Lemma fdiv_ok (x y : R) : y <> 0 -> fdiv x y = Ok (x / y).
Proof.
  intros Hy; unfold fdiv.
  destruct (Req_dec_T y 0) as [E | _]; [contradiction | reflexivity].
Qed.

Lemma fdiv_zero (x : R) : fdiv x 0 = Raise ZeroDivisionError.
Proof.
  unfold fdiv.
  destruct (Req_dec_T 0 0) as [_ | N]; [reflexivity | now elim N].
Qed.

Lemma fdiv_inv (x y q : R) : fdiv x y = Ok q -> y <> 0 /\ q = x / y.
Proof.
  unfold fdiv; destruct (Req_dec_T y 0) as [E | N]; intros H.
  - discriminate H.
  - injection H as <-; split; [exact N | reflexivity].
Qed.

Lemma math_sqrt_ok (x : R) : 0 <= x -> math_sqrt x = Ok (sqrt x).
Proof.
  intros Hx; unfold math_sqrt.
  destruct (Rlt_dec x 0) as [L | _]; [lra | reflexivity].
Qed.

Lemma math_sqrt_neg (x : R) : x < 0 -> math_sqrt x = Raise ValueError.
Proof.
  intros Hx; unfold math_sqrt.
  destruct (Rlt_dec x 0) as [_ | N]; [reflexivity | contradiction].
Qed.

Lemma math_acos_ok (x : R) : Rabs x <= 1 -> math_acos x = Ok (acos x).
Proof.
  intros Hx; unfold math_acos.
  destruct (Rle_dec (Rabs x) 1) as [_ | N]; [reflexivity | contradiction].
Qed.

Lemma quotient_pos (x y : R) : 0 < x -> 0 < y -> 0 < x / y.
Proof. intros Hx Hy; apply Rdiv_lt_0_compat; assumption. Qed.

(** Discharges the side conditions of the primitives. *)
Ltac positivity :=
  first [ assumption | lra
        | apply Rgt_not_eq; unfold Rgt; positivity
        | apply Rlt_le; positivity
        | apply quotient_pos; positivity
        | apply Rmult_lt_0_compat; positivity
        | apply Rplus_lt_0_compat; positivity
        | apply pow_lt; positivity
        | apply sqrt_lt_R0; positivity
        | exact MU_EARTH_pos | exact R_EARTH_pos ].

(** ** OrbitalMechanicsKernel *)

Lemma orbital_velocity_ok (radius : R) :
  0 < radius -> orbital_velocity radius = Ok (sqrt (MU_EARTH / radius)).
Proof.
  intros Hr; unfold orbital_velocity.
  rewrite fdiv_ok by positivity; simpl.
  apply math_sqrt_ok; positivity.
Qed.

Lemma orbital_velocity_raises (radius : R) :
  radius <= 0 -> exists e, orbital_velocity radius = Raise e.
Proof.
  intros [Hneg | ->]; unfold orbital_velocity.
  - rewrite fdiv_ok by lra; simpl.
    exists ValueError; apply math_sqrt_neg.
    unfold Rdiv. assert (H := MU_EARTH_pos).
    assert (Hi : / radius < 0) by (apply Rinv_lt_0_compat; exact Hneg).
    nra.
  - rewrite fdiv_zero; simpl. now exists ZeroDivisionError.
Qed.

Lemma orbital_velocity_inv (radius v : R) :
  orbital_velocity radius = Ok v ->
  0 < radius /\ v = sqrt (MU_EARTH / radius).
Proof.
  intros H. destruct (Rlt_dec 0 radius) as [Hpos | Hnp].
  - rewrite orbital_velocity_ok in H by exact Hpos.
    injection H as <-; split; [exact Hpos | reflexivity].
  - destruct (orbital_velocity_raises radius) as [e He]; [lra |].
    rewrite He in H; discriminate H.
Qed.

Lemma hohmann_delta_v_ok (r1 r2 : R) :
  0 < r1 -> 0 < r2 -> hohmann_delta_v r1 r2 = Ok (hohmann_value r1 r2).
Proof.
  intros H1 H2; unfold hohmann_delta_v.
  rewrite !orbital_velocity_ok by assumption; simpl.
  rewrite fdiv_ok by positivity; simpl.
  rewrite math_sqrt_ok by positivity; simpl.
  rewrite fdiv_ok by positivity; simpl.
  rewrite math_sqrt_ok by positivity; simpl.
  reflexivity.
Qed.

Lemma hohmann_delta_v_raises (r1 r2 : R) :
  r1 <= 0 -> exists e, hohmann_delta_v r1 r2 = Raise e.
Proof.
  intros H1; unfold hohmann_delta_v.
  destruct (orbital_velocity_raises r1 H1) as [e ->].
  now exists e.
Qed.

Lemma hohmann_value_nonneg (r1 r2 : R) : 0 <= hohmann_value r1 r2.
Proof.
  unfold hohmann_value.
  apply Rplus_le_le_0_compat; apply Rabs_pos.
Qed.

Lemma bielliptic_delta_v_ok (r1 r2 r_b : R) :
  0 < r1 -> 0 < r2 -> 0 < r_b ->
  bielliptic_delta_v r1 r2 r_b = Ok (bielliptic_value r1 r2 r_b).
Proof.
  intros H1 H2 Hb; unfold bielliptic_delta_v.
  rewrite !orbital_velocity_ok by assumption; simpl.
  repeat (rewrite fdiv_ok by positivity; simpl;
          rewrite math_sqrt_ok by positivity; simpl).
  reflexivity.
Qed.

Lemma bielliptic_value_nonneg (r1 r2 r_b : R) : 0 <= bielliptic_value r1 r2 r_b.
Proof.
  unfold bielliptic_value.
  repeat apply Rplus_le_le_0_compat; apply Rabs_pos.
Qed.

(** C5: for positive radii the Hohmann cost is defined and does not
    depend on the order of the two radii. *)
Theorem hohmann_delta_v_symmetric (r1 r2 : R) :
  0 < r1 -> 0 < r2 ->
  hohmann_delta_v r1 r2 = hohmann_delta_v r2 r1
  /\ exists dv, hohmann_delta_v r1 r2 = Ok dv.
Proof.
  intros H1 H2.
  rewrite (hohmann_delta_v_ok r1 r2), (hohmann_delta_v_ok r2 r1) by assumption.
  split; [| eexists; reflexivity].
  f_equal; unfold hohmann_value.
  rewrite (Rplus_comm r2 r1).
  rewrite (Rabs_minus_sym (sqrt (2 * MU_EARTH * r1 / (r2 * (r1 + r2))))).
  rewrite (Rabs_minus_sym (sqrt (MU_EARTH / r1))).
  apply Rplus_comm.
Qed.

Lemma hohmann_delta_v_symmetric_witness :
  hohmann_delta_v 6871 6971 = hohmann_delta_v 6971 6871
  /\ exists dv, hohmann_delta_v 6871 6971 = Ok dv.
Proof. apply (hohmann_delta_v_symmetric 6871 6971); lra. Defined.

(** ** Equal radii *)

Lemma transfer_speed_equal_radii (r : R) :
  0 < r -> 2 * MU_EARTH * r / (r * (r + r)) = MU_EARTH / r.
Proof. intros Hr; field; lra. Qed.






(** ** The selector's loop *)

(** A candidate replaces the running minimum only when strictly cheaper. *)
Lemma keep_cheaper (dv best : R) :
  (if lt_xreal dv (Finite best)
   then Ok (Finite dv) else Ok (Finite best) : result xreal)
  = Ok (Finite (Rmin best dv)).
Proof.
  unfold lt_xreal, Rmin.
  destruct (Rlt_dec dv best), (Rle_dec best dv);
    try reflexivity; do 2 f_equal; lra.
Qed.

(** After the three multipliers the loop holds the least of the three
    candidate costs; an exception of a candidate is the loop's. *)
Lemma bielliptic_loop (r1 r2 : R) :
  for_each (bielliptic_step r1 r2) [2; 5; 10]%Z PosInf
  = (best <- best_bielliptic r1 r2 ;; Ok (Finite best)).
Proof.
  unfold best_bielliptic; simpl; unfold bielliptic_step.
  destruct (bielliptic_delta_v r1 r2 (2 * Rmax r1 r2)) as [b2 | e];
    simpl; [| reflexivity].
  destruct (bielliptic_delta_v r1 r2 (5 * Rmax r1 r2)) as [b5 | e];
    simpl; [| reflexivity].
  change (if Rlt_dec b5 b2 then true else false)
    with (lt_xreal b5 (Finite b2)).
  rewrite keep_cheaper; simpl.
  destruct (bielliptic_delta_v r1 r2 (10 * Rmax r1 r2)) as [b10 | e];
    simpl; [| reflexivity].
  change (if Rlt_dec b10 (Rmin b2 b5) then true else false)
    with (lt_xreal b10 (Finite (Rmin b2 b5))).
  rewrite keep_cheaper; reflexivity.
Qed.

Lemma choose_transfer_refines (h1 h2 : R) :
  choose_transfer h1 h2 = cheaper_transfer h1 h2.
Proof.
  unfold choose_transfer, cheaper_transfer.
  rewrite bielliptic_loop.
  destruct (hohmann_delta_v (R_EARTH + h1) (R_EARTH + h2)) as [dv | e];
    simpl; [| reflexivity].
  destruct (best_bielliptic (R_EARTH + h1) (R_EARTH + h2)) as [b | e];
    simpl; [| reflexivity].
  destruct (Rlt_dec b dv); reflexivity.
Qed.

Lemma Rmax_pos (r1 r2 : R) : 0 < r1 -> 0 < Rmax r1 r2.
Proof. intros H1; assert (L := Rmax_l r1 r2); lra. Qed.

Lemma best_bielliptic_ok (r1 r2 : R) :
  0 < r1 -> 0 < r2 ->
  best_bielliptic r1 r2
  = Ok (Rmin (Rmin (bielliptic_value r1 r2 (2 * Rmax r1 r2))
                   (bielliptic_value r1 r2 (5 * Rmax r1 r2)))
             (bielliptic_value r1 r2 (10 * Rmax r1 r2))).
Proof.
  intros H1 H2; unfold best_bielliptic.
  assert (Hm := Rmax_pos r1 r2 H1).
  rewrite !bielliptic_delta_v_ok by (assumption || nra).
  reflexivity.
Qed.

(** The plan chosen for two positive radii. *)
Lemma choose_transfer_ok (h1 h2 : R) :
  0 < R_EARTH + h1 -> 0 < R_EARTH + h2 ->
  let r1 := R_EARTH + h1 in
  let r2 := R_EARTH + h2 in
  let dv_hohmann := hohmann_value r1 r2 in
  let best :=
    Rmin (Rmin (bielliptic_value r1 r2 (2 * Rmax r1 r2))
               (bielliptic_value r1 r2 (5 * Rmax r1 r2)))
         (bielliptic_value r1 r2 (10 * Rmax r1 r2)) in
  choose_transfer h1 h2
  = Ok (if Rlt_dec best dv_hohmann
        then mkTransferPlan BiElliptic best
        else mkTransferPlan Hohmann dv_hohmann).
Proof.
  intros H1 H2 r1 r2 dv_hohmann best.
  rewrite choose_transfer_refines; unfold cheaper_transfer.
  fold r1 r2.
  rewrite (hohmann_delta_v_ok r1 r2 H1 H2), (best_bielliptic_ok r1 r2 H1 H2).
  reflexivity.
Qed.

Lemma choose_transfer_total (h1 h2 : R) :
  0 < R_EARTH + h1 -> 0 < R_EARTH + h2 ->
  exists plan, choose_transfer h1 h2 = Ok plan.
Proof.
  intros H1 H2; rewrite (choose_transfer_ok h1 h2 H1 H2).
  eexists; reflexivity.
Qed.

(** What a returned plan says about the two costs. *)
Lemma choose_transfer_inv (h1 h2 : R) (plan : TransferPlan) :
  choose_transfer h1 h2 = Ok plan ->
  exists dv_hohmann best,
    hohmann_delta_v (R_EARTH + h1) (R_EARTH + h2) = Ok dv_hohmann
    /\ best_bielliptic (R_EARTH + h1) (R_EARTH + h2) = Ok best
    /\ plan = (if Rlt_dec best dv_hohmann
               then mkTransferPlan BiElliptic best
               else mkTransferPlan Hohmann dv_hohmann).
Proof.
  rewrite choose_transfer_refines; unfold cheaper_transfer.
  destruct (hohmann_delta_v (R_EARTH + h1) (R_EARTH + h2)) as [dv | e];
    simpl; [| discriminate].
  destruct (best_bielliptic (R_EARTH + h1) (R_EARTH + h2)) as [b | e];
    simpl; [| discriminate].
  intros H; injection H as <-.
  exists dv, b; repeat split.
Qed.

(** C4: the selector computes the Hohmann cost of the two radii, the
    bi-elliptic cost at the apoapses 2, 5 and 10 times the larger radius,
    keeps the least of the three, and returns the cheaper of the two
    methods under its name; positive radii always get a plan. *)
Theorem choose_transfer_selects_cheaper (h1 h2 : R) :
  choose_transfer h1 h2 = cheaper_transfer h1 h2
  /\ (0 < R_EARTH + h1 -> 0 < R_EARTH + h2 ->
      let r1 := R_EARTH + h1 in
      let r2 := R_EARTH + h2 in
      let dv_hohmann := hohmann_value r1 r2 in
      let best :=
        Rmin (Rmin (bielliptic_value r1 r2 (2 * Rmax r1 r2))
                   (bielliptic_value r1 r2 (5 * Rmax r1 r2)))
             (bielliptic_value r1 r2 (10 * Rmax r1 r2)) in
      hohmann_delta_v r1 r2 = Ok dv_hohmann
      /\ choose_transfer h1 h2
         = Ok (if Rlt_dec best dv_hohmann
               then mkTransferPlan BiElliptic best
               else mkTransferPlan Hohmann dv_hohmann)).
Proof.
  split; [apply choose_transfer_refines |].
  intros H1 H2 r1 r2 dv_hohmann best; split.
  - apply hohmann_delta_v_ok; assumption.
  - apply choose_transfer_ok; assumption.
Qed.

Lemma choose_transfer_selects_cheaper_witness :
  choose_transfer 500 600 = cheaper_transfer 500 600
  /\ exists dv_hohmann,
       hohmann_delta_v (R_EARTH + 500) (R_EARTH + 600) = Ok dv_hohmann.
Proof.
  destruct (choose_transfer_selects_cheaper 500 600) as [Hspec Hvalue].
  split; [exact Hspec |].
  destruct Hvalue as [Hh _]; [unfold R_EARTH; lra | unfold R_EARTH; lra |].
  eexists; exact Hh.
Defined.

(** C9: a returned plan never costs more than the Hohmann transfer; it is
    tagged bi-elliptic exactly when the best bi-elliptic candidate is
    strictly cheaper, so a tie goes to Hohmann; and two positive radii
    always get a plan. *)
Theorem choose_transfer_never_dearer (h1 h2 : R) :
  (forall plan, choose_transfer h1 h2 = Ok plan ->
     exists dv_hohmann best,
       hohmann_delta_v (R_EARTH + h1) (R_EARTH + h2) = Ok dv_hohmann
       /\ best_bielliptic (R_EARTH + h1) (R_EARTH + h2) = Ok best
       /\ delta_v_kms plan <= dv_hohmann
       /\ (method plan = BiElliptic <-> best < dv_hohmann)
       /\ (best = dv_hohmann -> method plan = Hohmann))
  /\ (0 < R_EARTH + h1 -> 0 < R_EARTH + h2 ->
      exists plan, choose_transfer h1 h2 = Ok plan).
Proof.
  split; [| apply choose_transfer_total].
  intros plan Hplan.
  destruct (choose_transfer_inv h1 h2 plan Hplan) as (dv & b & Hh & Hb & ->).
  exists dv, b; repeat split; try assumption;
    destruct (Rlt_dec b dv) as [L | N]; simpl; try lra;
    try reflexivity; try discriminate; try (intros; lra);
    try (intros; contradiction).
Qed.

Lemma choose_transfer_never_dearer_witness :
  exists plan dv_hohmann,
    choose_transfer 500 600 = Ok plan
    /\ hohmann_delta_v (R_EARTH + 500) (R_EARTH + 600) = Ok dv_hohmann
    /\ delta_v_kms plan <= dv_hohmann.
Proof.
  destruct (choose_transfer_never_dearer 500 600) as [Hinv Htotal].
  destruct Htotal as [plan Hplan]; [unfold R_EARTH; lra | unfold R_EARTH; lra |].
  destruct (Hinv plan Hplan) as (dv & best & Hh & _ & Hle & _).
  exists plan, dv; repeat split; assumption.
Defined.





(** ** InclinationChangeCalculator *)

Lemma inclination_change_delta_v_ok (h d : R) :
  0 < R_EARTH + h ->
  inclination_change_delta_v h d = Ok (inclination_value h d).
Proof.
  intros Hr; unfold inclination_change_delta_v.
  rewrite orbital_velocity_ok by exact Hr; reflexivity.
Qed.

Lemma inclination_change_delta_v_inv (h d dv : R) :
  inclination_change_delta_v h d = Ok dv ->
  0 < R_EARTH + h /\ dv = inclination_value h d.
Proof.
  unfold inclination_change_delta_v; intros H.
  destruct (orbital_velocity (R_EARTH + h)) as [v | e] eqn:Ev;
    simpl in H; [| discriminate H].
  destruct (orbital_velocity_inv _ _ Ev) as [Hr ->].
  injection H as <-; split; [exact Hr | reflexivity].
Qed.

Lemma half_angle_range (d : R) :
  0 <= d -> d <= 180 -> 0 <= math_radians d / 2 <= PI / 2.
Proof.
  intros H0 H180; unfold math_radians.
  assert (Hpi := PI_RGT_0); split; nra.
Qed.

Lemma inclination_value_zero (h : R) : inclination_value h 0 = 0.
Proof.
  unfold inclination_value, math_radians.
  replace (0 * (PI / 180) / 2) with 0 by lra.
  rewrite sin_0; lra.
Qed.

Lemma inclination_value_increasing (h d1 d2 : R) :
  0 < R_EARTH + h -> 0 <= d1 -> d1 < d2 -> d2 <= 180 ->
  inclination_value h d1 < inclination_value h d2.
Proof.
  intros Hr H0 Hlt H180; unfold inclination_value.
  assert (Hv : 0 < sqrt (MU_EARTH / (R_EARTH + h))) by positivity.
  assert (Hpi := PI_RGT_0).
  destruct (half_angle_range d1) as [A1 B1]; [lra | lra |].
  destruct (half_angle_range d2) as [A2 B2]; [lra | lra |].
  assert (Hs : sin (math_radians d1 / 2) < sin (math_radians d2 / 2)).
  { apply sin_increasing_1; try lra. unfold math_radians; nra. }
  nra.
Qed.

Lemma inclination_value_nonneg (h d : R) :
  0 <= d -> d <= 360 -> 0 <= inclination_value h d.
Proof.
  intros H0 H360; unfold inclination_value.
  assert (Hv := sqrt_pos (MU_EARTH / (R_EARTH + h))).
  assert (Hpi := PI_RGT_0).
  assert (Hs : 0 <= sin (math_radians d / 2))
    by (apply sin_ge_0; unfold math_radians; nra).
  nra.
Qed.

(** C8: a plane change of zero degrees is free, the cost grows strictly
    with the angle between 0 and 180 degrees, and every altitude of
    positive radius has a cost. *)
Theorem inclination_change_monotone (h : R) :
  (forall dv, inclination_change_delta_v h 0 = Ok dv -> dv = 0)
  /\ (forall d1 d2 dv1 dv2,
        0 <= d1 -> d1 < d2 -> d2 <= 180 ->
        inclination_change_delta_v h d1 = Ok dv1 ->
        inclination_change_delta_v h d2 = Ok dv2 ->
        dv1 < dv2)
  /\ (0 < R_EARTH + h ->
      forall d, exists dv, inclination_change_delta_v h d = Ok dv).
Proof.
  repeat split.
  - intros dv H.
    destruct (inclination_change_delta_v_inv _ _ _ H) as [_ ->].
    apply inclination_value_zero.
  - intros d1 d2 dv1 dv2 H0 Hlt H180 E1 E2.
    destruct (inclination_change_delta_v_inv _ _ _ E1) as [Hr ->].
    destruct (inclination_change_delta_v_inv _ _ _ E2) as [_ ->].
    apply inclination_value_increasing; assumption.
  - intros Hr d; rewrite inclination_change_delta_v_ok by exact Hr.
    eexists; reflexivity.
Qed.

Lemma inclination_change_monotone_witness :
  inclination_change_delta_v 500 0 = Ok 0
  /\ exists dv5 dv30,
       inclination_change_delta_v 500 5 = Ok dv5
       /\ inclination_change_delta_v 500 30 = Ok dv30
       /\ dv5 < dv30.
Proof.
  destruct (inclination_change_monotone 500) as (Hzero & Hmono & Htotal).
  assert (Hr : 0 < R_EARTH + 500) by (unfold R_EARTH; lra).
  destruct (Htotal Hr 0) as [dv0 E0].
  destruct (Htotal Hr 5) as [dv5 E5].
  destruct (Htotal Hr 30) as [dv30 E30].
  split.
  - rewrite E0; f_equal; exact (Hzero dv0 E0).
  - exists dv5, dv30; repeat split; try assumption.
    apply (Hmono 5 30); try assumption; lra.
Defined.

(** ** VehicleSizingEngine *)





(** ** LTANDriftSolver: the LTAN difference *)




Lemma delta_ltan_deg_half_turn : delta_ltan_deg 0 12 = -180.
Proof.
  unfold delta_ltan_deg, floor_mod.
  replace (((12 - 0) * 15 + 180) / 360) with (IZR 1) by lra.
  rewrite ZfloorZ; lra.
Qed.

Lemma delta_ltan_deg_same (l : R) : delta_ltan_deg l l = 0.
Proof.
  unfold delta_ltan_deg, floor_mod.
  replace (((l - l) * 15 + 180) / 360) with (/ 2) by lra.
  rewrite (Zfloor_eq 0) by lra; lra.
Qed.

(** ** LTANDriftSolver: the altitude grid *)

Lemma altitude_grid_spec (h : Z) :
  In h altitude_grid <-> (400 <= h <= 895 /\ h mod 5 = 0)%Z.
Proof.
  unfold altitude_grid, py_range.
  change (Z.to_nat ((900 - 400 + 5 - 1) / 5)) with 100%nat.
  rewrite in_map_iff; split.
  - intros (k & <- & Hk); apply in_seq in Hk.
    split; [lia |].
    rewrite (Z.mul_comm 5), Z.mod_add by lia; reflexivity.
  - intros [Hr Hm].
    exists (Z.to_nat ((h - 400) / 5)); split.
    + rewrite Z2Nat.id by (apply Z.div_pos; lia).
      assert (E := Z.div_mod h 5 ltac:(lia)).
      assert (E' : ((h - 400) / 5 = h / 5 - 80)%Z).
      { replace (h - 400)%Z with (h + (-80) * 5)%Z by lia.
        rewrite Z.div_add by lia; lia. }
      lia.
    + apply in_seq; split; [lia |].
      assert (((h - 400) / 5 < 100)%Z)
        by (apply Z.div_lt_upper_bound; lia).
      lia.
Qed.

Lemma altitude_grid_radius (h : Z) :
  In h altitude_grid -> 0 < R_EARTH + IZR h.
Proof.
  intros Hin; apply altitude_grid_spec in Hin as [[Hlo _] _].
  apply IZR_le in Hlo; unfold R_EARTH; lra.
Qed.

(** ** LTANDriftSolver: one candidate *)

Lemma J2_pos : 0 < J2.
Proof. unfold J2; lra. Qed.

Lemma candidate_cos_i_ok (rate : R) (h : Z) :
  0 < R_EARTH + IZR h ->
  candidate_cos_i rate h = Ok (cos_i_value rate h).
Proof.
  intros Ha; unfold candidate_cos_i, cos_i_value.
  rewrite fdiv_ok by positivity; cbn [bind].
  rewrite math_sqrt_ok by positivity; cbn [bind].
  rewrite fdiv_ok by positivity; cbn [bind].
  apply fdiv_ok.
  assert (Hn : 0 < sqrt (MU_EARTH / (R_EARTH + IZR h) ^ 3)) by positivity.
  assert (HR : 0 < R_EARTH ^ 2) by positivity.
  assert (HJ := J2_pos).
  assert (Hi : 0 < / (R_EARTH + IZR h) ^ 2)
    by (apply Rinv_0_lt_compat; positivity).
  assert (Hp : 0 < J2 * R_EARTH ^ 2 * sqrt (MU_EARTH / (R_EARTH + IZR h) ^ 3))
    by positivity.
  apply Rlt_not_eq; unfold Rdiv; nra.
Qed.

Lemma feasible_iff (rate : R) (h : Z) :
  0 < R_EARTH + IZR h ->
  feasible rate h <-> Rabs (cos_i_value rate h) <= 1.
Proof.
  intros Ha; unfold feasible; rewrite candidate_cos_i_ok by exact Ha.
  split.
  - intros (c & E & Hc); injection E as ->; exact Hc.
  - intros Hc; eexists; split; [reflexivity | exact Hc].
Qed.

(** A candidate that is not feasible leaves the search where it was. *)
Lemma ltan_step_skips (h0 rate d : R) (st : SearchState) (h : Z) :
  0 < R_EARTH + IZR h -> ~ feasible rate h ->
  ltan_step h0 rate d st h = Ok st.
Proof.
  intros Ha Hn; unfold ltan_step; destruct st as [best min_dv].
  rewrite candidate_cos_i_ok by exact Ha; cbn [bind].
  destruct (Rle_dec (Rabs (cos_i_value rate h)) 1) as [Hc | _];
    [| reflexivity].
  elim Hn; apply feasible_iff; assumption.
Qed.

(** The plane-change angle of the loop, taken in radians and then turned
    into degrees, is the distance in degrees to the reference. *)
Lemma plane_change_angle_degrees (i_rad reference_deg : R) :
  math_degrees (Rabs (i_rad - math_radians reference_deg))
  = Rabs (math_degrees i_rad - reference_deg).
Proof.
  unfold math_degrees, math_radians.
  assert (Hpi := PI_RGT_0).
  assert (Hk : 0 < 180 / PI) by positivity.
  replace (i_rad * (180 / PI) - reference_deg)
    with ((i_rad - reference_deg * (PI / 180)) * (180 / PI))
    by (field; lra).
  rewrite Rabs_mult, (Rabs_pos_eq (180 / PI)) by lra; reflexivity.
Qed.

Lemma candidate_cost_ok (h0 rate : R) (h : Z) :
  0 < R_EARTH + h0 -> 0 < R_EARTH + IZR h ->
  candidate_cost h0 rate h
  = Ok (hohmann_value (R_EARTH + h0) (R_EARTH + IZR h)
        + inclination_value (IZR h)
            (math_degrees (Rabs (acos (cos_i_value rate h)
                                 - math_radians 98.6)))).
Proof.
  intros H0 Ha; unfold candidate_cost.
  rewrite candidate_cos_i_ok by exact Ha; cbn [bind].
  rewrite hohmann_delta_v_ok by assumption; cbn [bind].
  rewrite inclination_change_delta_v_ok by assumption; cbn [bind].
  rewrite plane_change_angle_degrees; reflexivity.
Qed.

(** A feasible candidate either updates the search or is dearer than
    the best so far; it raises only when the current radius is not
    positive. *)
Lemma ltan_step_feasible (h0 rate d : R) (best : option LTANSolution)
  (min_dv : xreal) (h : Z) :
  0 < R_EARTH + IZR h -> feasible rate h ->
  (R_EARTH + h0 <= 0
   /\ exists e, ltan_step h0 rate d (best, min_dv) h = Raise e)
  \/ (0 < R_EARTH + h0
      /\ exists total,
           candidate_cost h0 rate h = Ok total
           /\ ltan_step h0 rate d (best, min_dv) h
              = Ok (if lt_xreal total min_dv
                    then (Some (mkLTANSolution h
                                  (math_degrees (acos (cos_i_value rate h)))
                                  total rate d),
                          Finite total)
                    else (best, min_dv))).
Proof.
  intros Ha Hf; apply feasible_iff in Hf; [| exact Ha].
  unfold ltan_step.
  rewrite candidate_cos_i_ok by exact Ha; cbn [bind].
  destruct (Rle_dec (Rabs (cos_i_value rate h)) 1) as [_ | N];
    [| contradiction].
  rewrite math_acos_ok by exact Hf; cbn [bind].
  destruct (Rlt_dec 0 (R_EARTH + h0)) as [H0 | H0].
  - right; split; [exact H0 |].
    rewrite hohmann_delta_v_ok by assumption; cbn [bind].
    rewrite inclination_change_delta_v_ok by assumption; cbn [bind].
    eexists; split; [apply candidate_cost_ok; assumption |].
    destruct (lt_xreal _ min_dv); reflexivity.
  - left; split; [lra |].
    destruct (hohmann_delta_v_raises (R_EARTH + h0) (R_EARTH + IZR h))
      as [e ->]; [lra |].
    now exists e.
Qed.

(** ** LTANDriftSolver: the search loop *)

Lemma in_snoc (seen : list Z) (h h' : Z) :
  In h' (seen ++ [h]) <-> In h' seen \/ h' = h.
Proof.
  rewrite in_app_iff; simpl; intuition (subst; auto).
Qed.

Lemma search_invariant_step (h0 rate d : R) (seen : list Z)
  (st : SearchState) (h : Z) :
  0 < R_EARTH + IZR h ->
  search_invariant h0 rate d seen st ->
  match ltan_step h0 rate d st h with
  | Ok st' => search_invariant h0 rate d (seen ++ [h]) st'
  | Raise _ => R_EARTH + h0 <= 0 /\ feasible rate h
  end.
Proof.
  intros Ha Hinv.
  destruct (Rle_dec (Rabs (cos_i_value rate h)) 1) as [Hc | Hc].
  - (* a feasible candidate *)
    assert (Hf : feasible rate h) by (apply feasible_iff; assumption).
    destruct st as [best min_dv].
    destruct (ltan_step_feasible h0 rate d best min_dv h Ha Hf)
      as [[Hneg [e ->]] | [Hpos (total & Hcost & ->)]];
      [split; assumption |].
    destruct best as [s |], min_dv as [m |]; simpl in Hinv;
      try contradiction.
    + destruct Hinv as (Hm & Hin & Hci & Hcs & Hr & Hd & _ & Hmin).
      unfold lt_xreal; destruct (Rlt_dec total m) as [Lt | Ge]; simpl.
      * repeat split; try assumption; try reflexivity.
        -- apply in_snoc; now right.
        -- exists (cos_i_value rate h); repeat split;
             [apply candidate_cos_i_ok; exact Ha | exact Hc].
        -- intros h' Hin' Hf'; apply in_snoc in Hin' as [Hin' | ->].
           ++ destruct (Hmin h' Hin' Hf') as (c & Ec & Hle).
              exists c; split; [exact Ec | lra].
           ++ exists total; split; [exact Hcost | lra].
      * repeat split; try assumption.
        -- apply in_snoc; now left.
        -- intros h' Hin' Hf'; apply in_snoc in Hin' as [Hin' | ->].
           ++ exact (Hmin h' Hin' Hf').
           ++ exists total; split; [exact Hcost | lra].
    + simpl; repeat split; try assumption; try reflexivity.
      * apply in_snoc; now right.
      * exists (cos_i_value rate h); repeat split;
          [apply candidate_cos_i_ok; exact Ha | exact Hc].
      * intros h' Hin' Hf'; apply in_snoc in Hin' as [Hin' | ->].
        -- elim (Hinv h' Hin' Hf').
        -- exists total; split; [exact Hcost | lra].
  - (* a candidate that is skipped *)
    assert (Hn : ~ feasible rate h)
      by (intros Hf; apply Hc; apply feasible_iff; assumption).
    rewrite ltan_step_skips by assumption.
    destruct st as [[s |] [m |]]; simpl in Hinv |- *; try contradiction.
    + destruct Hinv as (Hm & Hin & Hci & Hcs & Hr & Hd & Hpos & Hmin).
      repeat split; try assumption.
      * apply in_snoc; now left.
      * intros h' Hin' Hf'; apply in_snoc in Hin' as [Hin' | ->].
        -- exact (Hmin h' Hin' Hf').
        -- contradiction.
    + intros h' Hin'; apply in_snoc in Hin' as [Hin' | ->].
      * exact (Hinv h' Hin').
      * exact Hn.
Qed.

Lemma search_invariant_loop (h0 rate d : R) (items : list Z) :
  forall (seen : list Z) (st : SearchState),
    (forall h, In h items -> 0 < R_EARTH + IZR h) ->
    search_invariant h0 rate d seen st ->
    match for_each (ltan_step h0 rate d) items st with
    | Ok st' => search_invariant h0 rate d (seen ++ items) st'
    | Raise _ =>
        R_EARTH + h0 <= 0 /\ exists h, In h items /\ feasible rate h
    end.
Proof.
  induction items as [| h rest IH]; intros seen st Hpos Hinv;
    cbn [for_each].
  - rewrite app_nil_r; exact Hinv.
  - assert (Hstep := search_invariant_step h0 rate d seen st h
                       (Hpos h (or_introl eq_refl)) Hinv).
    destruct (ltan_step h0 rate d st h) as [st' | e]; cbn [bind].
    + specialize (IH (seen ++ [h]) st'
                     (fun k Hk => Hpos k (or_intror Hk)) Hstep).
      rewrite <- app_assoc in IH; simpl in IH.
      destruct (for_each (ltan_step h0 rate d) rest st') as [st'' | e'].
      * exact IH.
      * destruct IH as [Hneg (k & Hk & Hf)].
        split; [exact Hneg | exists k; split; [now right | exact Hf]].
    + destruct Hstep as [Hneg Hf].
      split; [exact Hneg | exists h; split; [now left | exact Hf]].
Qed.

(** The solver in terms of its loop, for a duration that is not zero. *)
Lemma ltan_drift_adjustment_unfold (li lt h0 d : R) :
  d <> 0 ->
  ltan_drift_adjustment li lt h0 d
  = (st <- for_each (ltan_step h0 (delta_ltan_deg li lt / d) d)
             altitude_grid (None, PosInf) ;;
     Ok (fst st)).
Proof.
  intros Hd; unfold ltan_drift_adjustment.
  rewrite fdiv_ok by exact Hd; reflexivity.
Qed.

Lemma ltan_drift_adjustment_zero_duration (li lt h0 : R) :
  ltan_drift_adjustment li lt h0 0 = Raise ZeroDivisionError.
Proof.
  unfold ltan_drift_adjustment; rewrite fdiv_zero; reflexivity.
Qed.

(** The three outcomes of the solver, for a duration that is not zero. *)
Lemma ltan_drift_adjustment_cases (li lt h0 d : R) :
  d <> 0 ->
  let rate := delta_ltan_deg li lt / d in
  match ltan_drift_adjustment li lt h0 d with
  | Ok None => forall h, In h altitude_grid -> ~ feasible rate h
  | Ok (Some s) =>
      search_invariant h0 rate d altitude_grid
        (Some s, Finite (total_delta_v_kms s))
  | Raise _ =>
      R_EARTH + h0 <= 0 /\ exists h, In h altitude_grid /\ feasible rate h
  end.
Proof.
  intros Hd rate; rewrite ltan_drift_adjustment_unfold by exact Hd.
  fold rate.
  assert (Hinit : search_invariant h0 rate d [] (None, PosInf))
    by (intros h []).
  assert (L := search_invariant_loop h0 rate d altitude_grid [] (None, PosInf)
                 altitude_grid_radius Hinit).
  destruct (for_each (ltan_step h0 rate d) altitude_grid (None, PosInf))
    as [[[s |] [m |]] | e]; cbn [bind fst]; simpl in L;
    try contradiction; try exact L.
  destruct L as (-> & L); simpl; split; [reflexivity | exact L].
Qed.

Lemma ltan_drift_adjustment_returns (li lt h0 d : R) :
  d <> 0 -> 0 < R_EARTH + h0 ->
  (exists h, In h altitude_grid /\ feasible (delta_ltan_deg li lt / d) h) ->
  exists s, ltan_drift_adjustment li lt h0 d = Ok (Some s).
Proof.
  intros Hd H0 (h & Hin & Hf).
  assert (C := ltan_drift_adjustment_cases li lt h0 d Hd); cbv zeta in C.
  destruct (ltan_drift_adjustment li lt h0 d) as [[s |] | e].
  - now exists s.
  - elim (C h Hin Hf).
  - destruct C as [Hneg _]; lra.
Qed.

Lemma cos_i_value_no_drift (h : Z) : cos_i_value 0 h = 0.
Proof.
  unfold cos_i_value, math_radians, Rdiv; rewrite !Rmult_0_l; reflexivity.
Qed.

Lemma feasible_no_drift (h : Z) : In h altitude_grid -> feasible 0 h.
Proof.
  intros Hin; apply feasible_iff; [apply altitude_grid_radius; exact Hin |].
  rewrite cos_i_value_no_drift, Rabs_R0; lra.
Qed.

(** With no LTAN shift every altitude of the grid is feasible, so a
    solution is returned from any altitude of positive radius. *)
Lemma ltan_drift_adjustment_no_shift (l h0 d : R) :
  d <> 0 -> 0 < R_EARTH + h0 ->
  exists s, ltan_drift_adjustment l l h0 d = Ok (Some s).
Proof.
  intros Hd H0; apply ltan_drift_adjustment_returns; try assumption.
  exists 400%Z; split; [apply altitude_grid_spec; split; [lia | reflexivity] |].
  rewrite delta_ltan_deg_same.
  replace (0 / d) with 0 by (unfold Rdiv; ring).
  apply feasible_no_drift, altitude_grid_spec; split; [lia | reflexivity].
Qed.

(** Half a turn of the node in one day is out of reach of the J2 drift:
    at every altitude of the grid [cos_i] exceeds one. *)
Lemma mean_motion_small (a : R) :
  1000 <= a -> 0 < sqrt (MU_EARTH / a ^ 3) < 0.02.
Proof.
  intros Ha.
  assert (Hmu := MU_EARTH_pos).
  assert (H2 : 1000 * 1000 <= a * a) by nra.
  assert (H3 : 1000 * 1000 * 1000 <= a ^ 3) by (simpl; nra).
  assert (Hq : 0 < MU_EARTH / a ^ 3) by positivity.
  split; [positivity |].
  rewrite <- (sqrt_square 0.02) by lra.
  apply sqrt_lt_1_alt; split; [lra |].
  apply Rmult_lt_reg_r with (a ^ 3); [lra |].
  unfold Rdiv; rewrite Rmult_assoc, Rinv_l by lra.
  unfold MU_EARTH; lra.
Qed.

Lemma infeasible_half_turn_in_a_day (h : Z) :
  In h altitude_grid -> ~ feasible (delta_ltan_deg 0 12 / 1) h.
Proof.
  intros Hin.
  assert (Ha := altitude_grid_radius h Hin).
  apply altitude_grid_spec in Hin as [[Hlo _] _]; apply IZR_le in Hlo.
  rewrite feasible_iff by exact Ha.
  rewrite delta_ltan_deg_half_turn.
  unfold cos_i_value, math_radians.
  set (a := R_EARTH + IZR h) in *.
  assert (Hbig : 1000 <= a) by (unfold a, R_EARTH; lra).
  destruct (mean_motion_small a Hbig) as [Hn0 Hn].
  set (n := sqrt (MU_EARTH / a ^ 3)) in *.
  assert (Hpi : 3 < PI) by (assert (P := PI2_3_2); lra).
  assert (Ha2 : 0 < a ^ 2) by positivity.
  assert (Hratio : R_EARTH ^ 2 < a ^ 2) by (unfold a, R_EARTH in *; simpl; nra).
  set (D := 1.5 * J2 * R_EARTH ^ 2 * n / a ^ 2).
  assert (HD0 : 0 < D) by (unfold D; assert (J := J2_pos); positivity).
  assert (HD : D < PI / 86400).
  { apply Rlt_trans with (1.5 * J2 * 0.02); [| unfold J2; lra].
    unfold D; apply Rmult_lt_reg_r with (a ^ 2); [exact Ha2 |].
    unfold Rdiv; rewrite Rmult_assoc, Rinv_l, Rmult_1_r by lra.
    assert (J := J2_pos).
    assert (P1 : 0 < R_EARTH ^ 2) by positivity.
    assert (P2 : R_EARTH ^ 2 * n < a ^ 2 * 0.02).
    { apply Rle_lt_trans with (a ^ 2 * n).
      - apply Rmult_le_compat_r; lra.
      - apply Rmult_lt_compat_l; lra. }
    assert (P3 : J2 * (R_EARTH ^ 2 * n) < J2 * (a ^ 2 * 0.02))
      by (apply Rmult_lt_compat_l; assumption).
    lra. }
  replace (-180 / 1 * (PI / 180) / 86400) with (- (PI / 86400)) by lra.
  replace (-1.5 * J2 * R_EARTH ^ 2 * n / a ^ 2) with (- D)
    by (unfold D; lra).
  replace (- (PI / 86400) / - D) with (PI / 86400 / D) by (field; lra).
  assert (Hgt : 1 < PI / 86400 / D).
  { apply Rmult_lt_reg_r with D; [exact HD0 |].
    unfold Rdiv at 1; rewrite Rmult_assoc, Rinv_l, Rmult_1_r by lra; lra. }
  rewrite Rabs_pos_eq by lra; lra.
Qed.

(** C1: for a duration that is not zero the solver tries the altitudes
    400, 405, ..., 895; a returned solution is a feasible altitude of
    that grid with the cost [hohmann_delta_v + inclination_change_delta_v]
    of the specification, and no feasible altitude of the grid is
    cheaper; from a current radius that is positive a solution is
    returned as soon as one altitude is feasible, and an exception is
    only raised for a current radius that is not positive. *)
Theorem ltan_drift_adjustment_global_minimum (li lt h0 d : R) :
  d <> 0 ->
  let rate := delta_ltan_deg li lt / d in
  (forall h, In h altitude_grid <-> (400 <= h <= 895 /\ h mod 5 = 0)%Z)
  /\ (forall s, ltan_drift_adjustment li lt h0 d = Ok (Some s) ->
        In (new_altitude_km s) altitude_grid
        /\ feasible rate (new_altitude_km s)
        /\ candidate_cost h0 rate (new_altitude_km s)
           = Ok (total_delta_v_kms s)
        /\ forall h, In h altitude_grid -> feasible rate h ->
             exists c, candidate_cost h0 rate h = Ok c
                       /\ total_delta_v_kms s <= c)
  /\ (0 < R_EARTH + h0 ->
      (exists h, In h altitude_grid /\ feasible rate h) ->
      exists s, ltan_drift_adjustment li lt h0 d = Ok (Some s))
  /\ (forall e, ltan_drift_adjustment li lt h0 d = Raise e ->
        R_EARTH + h0 <= 0).
Proof.
  intros Hd rate.
  assert (C := ltan_drift_adjustment_cases li lt h0 d Hd); cbv zeta in C.
  fold rate in C.
  split; [exact altitude_grid_spec |].
  split; [| split].
  - intros s Hs; rewrite Hs in C; simpl in C.
    destruct C as (_ & Hin & (c & Ec & Hc & _) & Hcost & _ & _ & _ & Hmin).
    repeat split; try assumption.
    exists c; split; assumption.
  - intros H0 Hf; apply ltan_drift_adjustment_returns; assumption.
  - intros e He; rewrite He in C; destruct C as [Hneg _]; exact Hneg.
Qed.

Lemma ltan_drift_adjustment_global_minimum_witness :
  exists s, ltan_drift_adjustment 9 9 500 90 = Ok (Some s)
    /\ In (new_altitude_km s) altitude_grid
    /\ forall h, In h altitude_grid ->
         exists c, candidate_cost 500 (delta_ltan_deg 9 9 / 90) h = Ok c
                   /\ total_delta_v_kms s <= c.
Proof.
  assert (Hd : 90 <> 0) by lra.
  assert (H0 : 0 < R_EARTH + 500) by (unfold R_EARTH; lra).
  destruct (ltan_drift_adjustment_global_minimum 9 9 500 90 Hd)
    as (_ & Hmin & _ & _).
  destruct (ltan_drift_adjustment_no_shift 9 500 90 Hd H0) as [s Hs].
  destruct (Hmin s Hs) as (Hin & _ & _ & Hle).
  exists s; repeat split; try assumption.
  intros h Hh; apply Hle; [exact Hh |].
  rewrite delta_ltan_deg_same.
  replace (0 / 90) with 0 by lra.
  apply feasible_no_drift; exact Hh.
Defined.

(** C2: for a duration that is not zero the solver returns the value
    "no solution" exactly when no altitude of the grid is feasible; an
    altitude that is not feasible is skipped, the search going on from
    the same state. *)
Theorem ltan_drift_adjustment_no_solution (li lt h0 d : R) :
  d <> 0 ->
  let rate := delta_ltan_deg li lt / d in
  (ltan_drift_adjustment li lt h0 d = Ok None
   <-> forall h, In h altitude_grid -> ~ feasible rate h)
  /\ (forall st h, In h altitude_grid -> ~ feasible rate h ->
        ltan_step h0 rate d st h = Ok st)
  /\ (forall h, In h altitude_grid ->
        candidate_cos_i rate h = Ok (cos_i_value rate h)
        /\ (feasible rate h <-> Rabs (cos_i_value rate h) <= 1)).
Proof.
  intros Hd rate.
  assert (C := ltan_drift_adjustment_cases li lt h0 d Hd); cbv zeta in C.
  fold rate in C.
  split; [| split].
  - split.
    + intros E; rewrite E in C; exact C.
    + intros Hnone.
      destruct (ltan_drift_adjustment li lt h0 d) as [[s |] | e].
      * simpl in C.
        destruct C as (_ & Hin & (c & Ec & Hc & _) & _).
        elim (Hnone _ Hin); exists c; split; assumption.
      * reflexivity.
      * destruct C as [_ (h & Hin & Hf)]; elim (Hnone h Hin Hf).
  - intros st h Hin Hn; apply ltan_step_skips;
      [apply altitude_grid_radius; exact Hin | exact Hn].
  - intros h Hin; apply altitude_grid_radius in Hin.
    split; [apply candidate_cos_i_ok | apply feasible_iff]; exact Hin.
Qed.

Lemma ltan_drift_adjustment_no_solution_witness :
  ltan_drift_adjustment 0 12 500 1 = Ok None.
Proof.
  assert (Hd : 1 <> 0) by lra.
  destruct (ltan_drift_adjustment_no_solution 0 12 500 1 Hd)
    as [[_ Hnone] _].
  apply Hnone; exact infeasible_half_turn_in_a_day.
Defined.



(** ** LTANDriftSolver: bounds on a solution *)

Lemma math_degrees_range (x : R) :
  0 <= x <= PI -> 0 <= math_degrees x <= 180.
Proof.
  intros [Lo Hi]; unfold math_degrees.
  assert (Hpi := PI_RGT_0).
  assert (Hk : 0 < 180 / PI) by positivity.
  assert (E : PI * (180 / PI) = 180) by (field; lra).
  split; nra.
Qed.

Lemma plane_change_angle_range (cos_i : R) :
  0 <= Rabs (acos cos_i - math_radians 98.6) <= PI.
Proof.
  assert (Hpi := PI_RGT_0).
  destruct (acos_bound cos_i) as [Lo Hi].
  split; [apply Rabs_pos |].
  unfold math_radians; apply Rabs_le; split; nra.
Qed.

(** C10: a returned solution has its inclination between 0 and 180
    degrees and a total delta-v that is not negative. *)
Theorem ltan_solution_bounds (li lt h0 d : R) (s : LTANSolution) :
  ltan_drift_adjustment li lt h0 d = Ok (Some s) ->
  0 <= new_inclination_deg s <= 180 /\ 0 <= total_delta_v_kms s.
Proof.
  intros Hs.
  destruct (Req_dec_T d 0) as [-> | Hd];
    [rewrite ltan_drift_adjustment_zero_duration in Hs; discriminate Hs |].
  assert (C := ltan_drift_adjustment_cases li lt h0 d Hd); cbv zeta in C.
  rewrite Hs in C; simpl in C.
  destruct C as (_ & Hin & (c & Ec & Hc & Hi) & Hcost & _ & _ & H0 & _).
  assert (Ha := altitude_grid_radius _ Hin).
  split.
  - rewrite Hi; apply math_degrees_range, acos_bound.
  - rewrite candidate_cost_ok in Hcost by assumption.
    injection Hcost as <-.
    apply Rplus_le_le_0_compat; [apply hohmann_value_nonneg |].
    destruct (math_degrees_range _
                (plane_change_angle_range
                   (cos_i_value (delta_ltan_deg li lt / d)
                                (new_altitude_km s)))) as [Lo Hi'].
    apply inclination_value_nonneg; lra.
Qed.

Lemma ltan_solution_bounds_witness :
  exists s, ltan_drift_adjustment 9 9 500 90 = Ok (Some s)
    /\ 0 <= new_inclination_deg s <= 180 /\ 0 <= total_delta_v_kms s.
Proof.
  assert (Hd : 90 <> 0) by lra.
  assert (H0 : 0 < R_EARTH + 500) by (unfold R_EARTH; lra).
  destruct (ltan_drift_adjustment_no_shift 9 500 90 Hd H0) as [s Hs].
  exists s; split; [exact Hs |].
  exact (ltan_solution_bounds 9 9 500 90 s Hs).
Defined.

(** * Further properties of the kernel *)

(** ** Circular and transfer speeds *)

Lemma hohmann_value_speeds (r1 r2 : R) :
  hohmann_value r1 r2
  = Rabs (transfer_speed r1 r2 - circular_speed r1)
    + Rabs (circular_speed r2 - transfer_speed r2 r1).
Proof.
  unfold hohmann_value, transfer_speed, circular_speed.
  now rewrite (Rplus_comm r2 r1).
Qed.

Lemma bielliptic_value_speeds (r1 r2 r_b : R) :
  bielliptic_value r1 r2 r_b
  = Rabs (transfer_speed r1 r_b - circular_speed r1)
    + Rabs (transfer_speed r_b r2 - transfer_speed r_b r1)
    + Rabs (circular_speed r2 - transfer_speed r2 r_b).
Proof.
  unfold bielliptic_value, transfer_speed, circular_speed.
  now rewrite (Rplus_comm r_b r2), (Rplus_comm r_b r1).
Qed.

Lemma circular_speed_pos (r : R) : 0 < r -> 0 < circular_speed r.
Proof. intros Hr; unfold circular_speed; positivity. Qed.

Lemma transfer_speed_square (r r' : R) :
  0 < r -> 0 < r' ->
  2 * MU_EARTH * r' / (r * (r + r')) = MU_EARTH / r * (2 * r' / (r + r')).
Proof. intros Hr Hr'; field; lra. Qed.

Lemma scaled_circular_speed (k r : R) :
  0 <= k -> 0 < r -> k * circular_speed r = sqrt (k * k * (MU_EARTH / r)).
Proof.
  intros Hk Hr; unfold circular_speed.
  rewrite sqrt_mult by (try positivity; nra).
  now rewrite sqrt_square by exact Hk.
Qed.

(** The transfer speed against a multiple of the circular speed. *)
Lemma transfer_speed_le_scaled (k r r' : R) :
  0 <= k -> 0 < r -> 0 < r' -> 2 * r' <= k * k * (r + r') ->
  transfer_speed r r' <= k * circular_speed r.
Proof.
  intros Hk Hr Hr' Hle.
  rewrite scaled_circular_speed by assumption.
  unfold transfer_speed; rewrite transfer_speed_square by assumption.
  assert (Hq : 0 < MU_EARTH / r) by positivity.
  assert (E : 2 * r' / (r + r') * (r + r') = 2 * r') by (field; lra).
  assert (Ht : 2 * r' / (r + r') <= k * k) by nra.
  assert (H0 : 0 < 2 * r' / (r + r')) by positivity.
  apply sqrt_le_1; nra.
Qed.

Lemma transfer_speed_ge_scaled (k r r' : R) :
  0 <= k -> 0 < r -> 0 < r' -> k * k * (r + r') <= 2 * r' ->
  k * circular_speed r <= transfer_speed r r'.
Proof.
  intros Hk Hr Hr' Hle.
  rewrite scaled_circular_speed by assumption.
  unfold transfer_speed; rewrite transfer_speed_square by assumption.
  assert (Hq : 0 < MU_EARTH / r) by positivity.
  assert (E : 2 * r' / (r + r') * (r + r') = 2 * r') by (field; lra).
  assert (Ht : k * k <= 2 * r' / (r + r')) by nra.
  assert (H0 : 0 < 2 * r' / (r + r')) by positivity.
  apply sqrt_le_1; nra.
Qed.

Lemma transfer_speed_ge_circular (r r' : R) :
  0 < r -> r <= r' -> circular_speed r <= transfer_speed r r'.
Proof.
  intros Hr Hle.
  rewrite <- (Rmult_1_l (circular_speed r)).
  apply transfer_speed_ge_scaled; lra.
Qed.

Lemma transfer_speed_le_circular (r r' : R) :
  0 < r' -> r' <= r -> transfer_speed r r' <= circular_speed r.
Proof.
  intros Hr Hle.
  rewrite <- (Rmult_1_l (circular_speed r)).
  apply transfer_speed_le_scaled; lra.
Qed.


Lemma circular_speed_decreasing (r1 r2 : R) :
  0 < r1 -> r1 < r2 -> circular_speed r2 < circular_speed r1.
Proof.
  intros H1 Hlt; unfold circular_speed.
  apply sqrt_lt_1; [positivity | positivity |].
  unfold Rdiv; apply Rmult_lt_compat_l; [exact MU_EARTH_pos |].
  apply Rinv_lt_contravar; nra.
Qed.

(** ** [orbital_velocity] *)

Lemma orbital_velocity_zero : orbital_velocity 0 = Raise ZeroDivisionError.
Proof. unfold orbital_velocity; now rewrite fdiv_zero. Qed.

Lemma orbital_velocity_negative (radius : R) :
  radius < 0 -> orbital_velocity radius = Raise ValueError.
Proof.
  intros Hneg; unfold orbital_velocity.
  rewrite fdiv_ok by lra; cbn [bind].
  apply math_sqrt_neg.
  assert (Hi : / radius < 0) by (apply Rinv_lt_0_compat; exact Hneg).
  assert (Hmu := MU_EARTH_pos); unfold Rdiv; nra.
Qed.

(** X1: [orbital_velocity] returns the positive speed [v] with
    [v * v * radius = MU_EARTH] for a positive radius, raises
    [ZeroDivisionError] for the radius zero and [ValueError] for a
    negative radius. *)
Theorem orbital_velocity_domain (radius : R) :
  (0 < radius ->
   exists v, orbital_velocity radius = Ok v
             /\ 0 < v /\ v * v * radius = MU_EARTH)
  /\ (radius = 0 -> orbital_velocity radius = Raise ZeroDivisionError)
  /\ (radius < 0 -> orbital_velocity radius = Raise ValueError).
Proof.
  repeat split.
  - intros Hr; exists (sqrt (MU_EARTH / radius)).
    split; [apply orbital_velocity_ok; exact Hr |].
    split; [positivity |].
    rewrite sqrt_sqrt by positivity; field; lra.
  - intros ->; exact orbital_velocity_zero.
  - exact (orbital_velocity_negative radius).
Qed.

Lemma orbital_velocity_domain_witness :
  (exists v, orbital_velocity 6871 = Ok v
             /\ 0 < v /\ v * v * 6871 = MU_EARTH)
  /\ orbital_velocity 0 = Raise ZeroDivisionError
  /\ orbital_velocity (-1) = Raise ValueError.
Proof.
  split; [| split].
  - apply (orbital_velocity_domain 6871); lra.
  - apply (orbital_velocity_domain 0); reflexivity.
  - apply (orbital_velocity_domain (-1)); lra.
Defined.



(** ** [hohmann_delta_v] *)

Lemma hohmann_delta_v_second_radius (r1 r2 : R) :
  0 < r1 ->
  (r2 = 0 -> hohmann_delta_v r1 r2 = Raise ZeroDivisionError)
  /\ (r2 < 0 -> hohmann_delta_v r1 r2 = Raise ValueError).
Proof.
  intros H1; unfold hohmann_delta_v.
  rewrite (orbital_velocity_ok r1 H1); cbn [bind].
  split; intros H2;
    [subst r2; rewrite orbital_velocity_zero
    | rewrite (orbital_velocity_negative r2 H2)]; reflexivity.
Qed.

Lemma hohmann_delta_v_first_radius (r1 r2 : R) :
  (r1 = 0 -> hohmann_delta_v r1 r2 = Raise ZeroDivisionError)
  /\ (r1 < 0 -> hohmann_delta_v r1 r2 = Raise ValueError).
Proof.
  unfold hohmann_delta_v; split; intros H1;
    [subst r1; rewrite orbital_velocity_zero
    | rewrite (orbital_velocity_negative r1 H1)]; reflexivity.
Qed.

(** A value comes only from two positive radii, and is the closed form. *)
Lemma hohmann_delta_v_inv (r1 r2 dv : R) :
  hohmann_delta_v r1 r2 = Ok dv ->
  0 < r1 /\ 0 < r2 /\ dv = hohmann_value r1 r2.
Proof.
  intros E.
  destruct (hohmann_delta_v_first_radius r1 r2) as [Hz Hn].
  destruct (Rtotal_order r1 0) as [H1 | [H1 | H1]];
    [rewrite (Hn H1) in E; discriminate E
    | rewrite (Hz H1) in E; discriminate E |].
  destruct (hohmann_delta_v_second_radius r1 r2 H1) as [Hz2 Hn2].
  destruct (Rtotal_order r2 0) as [H2 | [H2 | H2]];
    [rewrite (Hn2 H2) in E; discriminate E
    | rewrite (Hz2 H2) in E; discriminate E |].
  rewrite hohmann_delta_v_ok in E by assumption.
  injection E as <-; repeat split; assumption.
Qed.






(** X5: the direction of the two burns.  Raising the orbit, both burns
    speed the vehicle up: the cost is [(transfer - circular)] at
    departure plus [(circular - transfer)] at arrival, without absolute
    values; lowering it, both burns slow it down. *)
Theorem hohmann_delta_v_burns (r1 r2 : R) :
  0 < r1 -> 0 < r2 ->
  (r1 <= r2 ->
   circular_speed r1 <= transfer_speed r1 r2
   /\ transfer_speed r2 r1 <= circular_speed r2
   /\ hohmann_delta_v r1 r2
      = Ok ((transfer_speed r1 r2 - circular_speed r1)
            + (circular_speed r2 - transfer_speed r2 r1)))
  /\ (r2 <= r1 ->
      transfer_speed r1 r2 <= circular_speed r1
      /\ circular_speed r2 <= transfer_speed r2 r1
      /\ hohmann_delta_v r1 r2
         = Ok ((circular_speed r1 - transfer_speed r1 r2)
               + (transfer_speed r2 r1 - circular_speed r2))).
Proof.
  intros H1 H2; rewrite hohmann_delta_v_ok, hohmann_value_speeds by assumption.
  split; intros Hle.
  - assert (A := transfer_speed_ge_circular r1 r2 H1 Hle).
    assert (B := transfer_speed_le_circular r2 r1 H1 Hle).
    repeat split; try assumption.
    rewrite !Rabs_pos_eq by lra; reflexivity.
  - assert (A := transfer_speed_le_circular r1 r2 H2 Hle).
    assert (B := transfer_speed_ge_circular r2 r1 H2 Hle).
    repeat split; try assumption.
    rewrite (Rabs_left1 (transfer_speed r1 r2 - circular_speed r1)) by lra.
    rewrite (Rabs_left1 (circular_speed r2 - transfer_speed r2 r1)) by lra.
    f_equal; lra.
Qed.

Lemma hohmann_delta_v_burns_witness :
  hohmann_delta_v 6871 6971
  = Ok ((transfer_speed 6871 6971 - circular_speed 6871)
        + (circular_speed 6971 - transfer_speed 6971 6871)).
Proof.
  destruct (hohmann_delta_v_burns 6871 6971) as [Hup _]; [lra | lra |].
  destruct Hup as (_ & _ & E); [lra | exact E].
Defined.

(** ** [bielliptic_delta_v] *)

Lemma transfer_speed_same (r : R) :
  0 < r -> transfer_speed r r = circular_speed r.
Proof.
  intros Hr; unfold transfer_speed, circular_speed.
  now rewrite transfer_speed_equal_radii.
Qed.

Lemma bielliptic_value_through_arrival (r1 r2 : R) :
  0 < r1 -> 0 < r2 -> bielliptic_value r1 r2 r2 = hohmann_value r1 r2.
Proof.
  intros H1 H2; rewrite bielliptic_value_speeds, hohmann_value_speeds.
  rewrite (transfer_speed_same r2 H2), Rminus_diag, Rabs_R0; lra.
Qed.

Lemma bielliptic_value_through_departure (r1 r2 : R) :
  0 < r1 -> 0 < r2 -> bielliptic_value r1 r2 r1 = hohmann_value r1 r2.
Proof.
  intros H1 H2; rewrite bielliptic_value_speeds, hohmann_value_speeds.
  rewrite (transfer_speed_same r1 H1), Rminus_diag, Rabs_R0; lra.
Qed.

(** X6: a bi-elliptic transfer whose intermediate apoapsis is the radius
    of the arrival orbit, or of the departure orbit, is the Hohmann
    transfer: one of its three burns vanishes and the cost is the same. *)
Theorem bielliptic_delta_v_degenerates_to_hohmann (r1 r2 : R) :
  0 < r1 -> 0 < r2 ->
  bielliptic_delta_v r1 r2 r2 = hohmann_delta_v r1 r2
  /\ bielliptic_delta_v r1 r2 r1 = hohmann_delta_v r1 r2
  /\ exists dv, hohmann_delta_v r1 r2 = Ok dv.
Proof.
  intros H1 H2.
  rewrite !bielliptic_delta_v_ok, hohmann_delta_v_ok by assumption.
  rewrite bielliptic_value_through_arrival,
    bielliptic_value_through_departure by assumption.
  repeat split; eexists; reflexivity.
Qed.

Lemma bielliptic_delta_v_degenerates_to_hohmann_witness :
  bielliptic_delta_v 6871 42164 42164 = hohmann_delta_v 6871 42164
  /\ bielliptic_delta_v 6871 42164 6871 = hohmann_delta_v 6871 42164
  /\ exists dv, hohmann_delta_v 6871 42164 = Ok dv.
Proof.
  apply (bielliptic_delta_v_degenerates_to_hohmann 6871 42164); lra.
Defined.

Lemma bielliptic_value_symmetric (r1 r2 r_b : R) :
  bielliptic_value r1 r2 r_b = bielliptic_value r2 r1 r_b.
Proof.
  rewrite !bielliptic_value_speeds.
  rewrite (Rabs_minus_sym (transfer_speed r1 r_b)).
  rewrite (Rabs_minus_sym (transfer_speed r_b r2)).
  rewrite (Rabs_minus_sym (circular_speed r2)).
  lra.
Qed.

Lemma hohmann_value_symmetric (r1 r2 : R) :
  hohmann_value r1 r2 = hohmann_value r2 r1.
Proof.
  rewrite !hohmann_value_speeds.
  rewrite (Rabs_minus_sym (transfer_speed r1 r2)).
  rewrite (Rabs_minus_sym (circular_speed r2)).
  lra.
Qed.



Lemma quotient_of_negatives (x y : R) : x < 0 -> y < 0 -> 0 < x / y.
Proof.
  intros Hx Hy.
  replace (x / y) with ((- x) / (- y)) by (field; lra).
  apply quotient_pos; lra.
Qed.

(** X8: the intermediate apoapsis is not checked.  With two positive
    radii, [r_b = 0] raises [ZeroDivisionError] and a negative [r_b]
    above [- r1] raises [ValueError], but a negative [r_b] below both
    [- r1] and [- r2] is accepted and given a cost. *)
Theorem bielliptic_delta_v_apoapsis_unchecked (r1 r2 r_b : R) :
  0 < r1 -> 0 < r2 ->
  (r_b = 0 -> bielliptic_delta_v r1 r2 r_b = Raise ZeroDivisionError)
  /\ (- r1 < r_b < 0 -> bielliptic_delta_v r1 r2 r_b = Raise ValueError)
  /\ (r_b < - r1 -> r_b < - r2 ->
      bielliptic_delta_v r1 r2 r_b = Ok (bielliptic_value r1 r2 r_b)
      /\ 0 <= bielliptic_value r1 r2 r_b).
Proof.
  intros H1 H2.
  assert (Hmu := MU_EARTH_pos).
  split; [| split].
  - intros ->; unfold bielliptic_delta_v.
    rewrite orbital_velocity_ok by exact H1; cbn [bind].
    rewrite fdiv_ok by nra; cbn [bind].
    rewrite math_sqrt_ok by (unfold Rdiv; nra); cbn [bind].
    replace (0 * (r1 + 0)) with 0 by ring.
    now rewrite fdiv_zero.
  - intros [Hlo Hhi]; unfold bielliptic_delta_v.
    rewrite orbital_velocity_ok by exact H1; cbn [bind].
    rewrite fdiv_ok by nra; cbn [bind].
    rewrite math_sqrt_neg; [reflexivity |].
    assert (Hd : 0 < / (r1 * (r1 + r_b)))
      by (apply Rinv_0_lt_compat; nra).
    assert (Hnum : 2 * MU_EARTH * r_b < 0) by nra.
    unfold Rdiv.
    rewrite <- (Rmult_0_l (/ (r1 * (r1 + r_b)))).
    apply Rmult_lt_compat_r; assumption.
  - intros Hb1 Hb2; split; [| apply bielliptic_value_nonneg].
    assert (N : forall r, 0 < r -> r_b < - r ->
                r * (r + r_b) < 0 /\ 0 < r_b * (r + r_b)) by (intros; nra).
    destruct (N r1 H1 Hb1) as [D1 E1], (N r2 H2 Hb2) as [D2 E2].
    unfold bielliptic_delta_v.
    rewrite !orbital_velocity_ok by assumption; cbn [bind].
    rewrite (fdiv_ok _ (r1 * (r1 + r_b))) by lra; cbn [bind].
    rewrite math_sqrt_ok
      by (apply Rlt_le, quotient_of_negatives; [nra | exact D1]);
      cbn [bind].
    rewrite (fdiv_ok _ (r_b * (r1 + r_b))) by lra; cbn [bind].
    rewrite math_sqrt_ok by positivity; cbn [bind].
    rewrite (fdiv_ok _ (r_b * (r2 + r_b))) by lra; cbn [bind].
    rewrite math_sqrt_ok by positivity; cbn [bind].
    rewrite (fdiv_ok _ (r2 * (r2 + r_b))) by lra; cbn [bind].
    rewrite math_sqrt_ok
      by (apply Rlt_le, quotient_of_negatives; [nra | exact D2]);
      cbn [bind].
    reflexivity.
Qed.

Lemma bielliptic_delta_v_apoapsis_unchecked_witness :
  bielliptic_delta_v 6871 6971 0 = Raise ZeroDivisionError
  /\ bielliptic_delta_v 6871 6971 (-1) = Raise ValueError
  /\ bielliptic_delta_v 6871 6971 (-7000)
     = Ok (bielliptic_value 6871 6971 (-7000)).
Proof.
  destruct (bielliptic_delta_v_apoapsis_unchecked 6871 6971 0)
    as (Hz & _); [lra | lra |].
  destruct (bielliptic_delta_v_apoapsis_unchecked 6871 6971 (-1))
    as (_ & Hn & _); [lra | lra |].
  destruct (bielliptic_delta_v_apoapsis_unchecked 6871 6971 (-7000))
    as (_ & _ & Hv); [lra | lra |].
  repeat split.
  - apply Hz; reflexivity.
  - apply Hn; lra.
  - apply Hv; lra.
Defined.

(** ** The selector *)





(** Between two near orbits, [r1 <= r2 <= 1.2 * r1], the Hohmann
    transfer costs at most a tenth of the circular speed at [r1], and a
    bi-elliptic transfer through [r_b >= 2 * r2] at least 0.15 of it. *)
Lemma hohmann_value_near (r1 r2 : R) :
  0 < r1 -> r1 <= r2 -> r2 <= 1.2 * r1 ->
  hohmann_value r1 r2 <= 0.1 * circular_speed r1.
Proof.
  intros H1 Hle Hnear.
  assert (H2 : 0 < r2) by lra.
  rewrite hohmann_value_speeds.
  assert (A1 : transfer_speed r1 r2 <= 1.05 * circular_speed r1)
    by (apply transfer_speed_le_scaled; lra).
  assert (A2 := transfer_speed_ge_circular r1 r2 H1 Hle).
  assert (B1 : 0.95 * circular_speed r2 <= transfer_speed r2 r1)
    by (apply transfer_speed_ge_scaled; lra).
  assert (B2 := transfer_speed_le_circular r2 r1 H1 Hle).
  assert (C : circular_speed r2 <= circular_speed r1).
  { destruct Hle as [Hlt | <-]; [| lra].
    apply Rlt_le, circular_speed_decreasing; assumption. }
  rewrite !Rabs_pos_eq by lra; lra.
Qed.

Lemma bielliptic_value_far_apoapsis (r1 r2 r_b : R) :
  0 < r1 -> 2 * r1 <= r_b ->
  0.15 * circular_speed r1 <= bielliptic_value r1 r2 r_b.
Proof.
  intros H1 Hb.
  rewrite bielliptic_value_speeds.
  assert (D : 1.15 * circular_speed r1 <= transfer_speed r1 r_b)
    by (apply transfer_speed_ge_scaled; lra).
  assert (V := circular_speed_pos r1 H1).
  rewrite (Rabs_pos_eq (transfer_speed r1 r_b - circular_speed r1)) by lra.
  match goal with
  | |- _ <= _ + Rabs ?x + Rabs ?y =>
      assert (A := Rabs_pos x); assert (B := Rabs_pos y)
  end.
  lra.
Qed.

Lemma hohmann_lt_bielliptic_near (r1 r2 r_b : R) :
  0 < r1 -> 0 < r2 -> r1 <= 1.2 * r2 -> r2 <= 1.2 * r1 ->
  2 * Rmax r1 r2 <= r_b ->
  hohmann_value r1 r2 < bielliptic_value r1 r2 r_b.
Proof.
  intros H1 H2 N1 N2 Hb.
  destruct (Rle_dec r1 r2) as [Hle | Hgt].
  - rewrite Rmax_right in Hb by exact Hle.
    assert (V := circular_speed_pos r1 H1).
    assert (A := hohmann_value_near r1 r2 H1 Hle N2).
    assert (B := bielliptic_value_far_apoapsis r1 r2 r_b H1).
    lra.
  - rewrite Rmax_left in Hb by lra.
    rewrite hohmann_value_symmetric, bielliptic_value_symmetric.
    assert (V := circular_speed_pos r2 H2).
    assert (A : hohmann_value r2 r1 <= 0.1 * circular_speed r2)
      by (apply hohmann_value_near; lra).
    assert (B := bielliptic_value_far_apoapsis r2 r1 r_b H2).
    lra.
Qed.

(** X10: between two near orbits (positive radii, neither more than 1.2
    times the other) the selector always returns the Hohmann plan: each
    of the three bi-elliptic candidates is strictly dearer. *)
Theorem choose_transfer_near_orbits (h1 h2 : R) :
  0 < R_EARTH + h1 -> 0 < R_EARTH + h2 ->
  R_EARTH + h1 <= 1.2 * (R_EARTH + h2) ->
  R_EARTH + h2 <= 1.2 * (R_EARTH + h1) ->
  choose_transfer h1 h2
  = Ok (mkTransferPlan Hohmann
          (hohmann_value (R_EARTH + h1) (R_EARTH + h2)))
  /\ forall multiplier, In multiplier [2; 5; 10]%Z ->
       hohmann_value (R_EARTH + h1) (R_EARTH + h2)
       < bielliptic_value (R_EARTH + h1) (R_EARTH + h2)
           (IZR multiplier * Rmax (R_EARTH + h1) (R_EARTH + h2)).
Proof.
  intros H1 H2 N1 N2.
  assert (M := Rmax_pos _ (R_EARTH + h2) H1).
  assert (B : forall m, 2 <= m ->
            hohmann_value (R_EARTH + h1) (R_EARTH + h2)
            < bielliptic_value (R_EARTH + h1) (R_EARTH + h2)
                (m * Rmax (R_EARTH + h1) (R_EARTH + h2))).
  { intros m Hm; apply hohmann_lt_bielliptic_near; try assumption; nra. }
  split.
  - rewrite (choose_transfer_ok h1 h2 H1 H2); cbv zeta.
    destruct (Rlt_dec _ _) as [L | _]; [| reflexivity].
    exfalso; revert L; apply Rle_not_lt, Rlt_le.
    repeat apply Rmin_glb_lt; apply B; lra.
  - intros m Hm; apply B.
    simpl in Hm; destruct Hm as [<- | [<- | [<- | []]]]; lra.
Qed.

Lemma choose_transfer_near_orbits_witness :
  choose_transfer 500 600
  = Ok (mkTransferPlan Hohmann
          (hohmann_value (R_EARTH + 500) (R_EARTH + 600))).
Proof.
  apply (choose_transfer_near_orbits 500 600); unfold R_EARTH; lra.
Defined.

(** * Further properties of the plane change *)

Lemma inclination_value_opp (h d : R) :
  inclination_value h (- d) = - inclination_value h d.
Proof.
  unfold inclination_value, math_radians.
  replace (- d * (PI / 180) / 2) with (- (d * (PI / 180) / 2)) by lra.
  rewrite sin_neg; ring.
Qed.




(** X11: the angle is taken as it comes: a negative plane change gets
    the negated, hence negative, delta-v of the positive one. *)
Theorem inclination_change_negative_angle (h d dv : R) :
  inclination_change_delta_v h d = Ok dv ->
  inclination_change_delta_v h (- d) = Ok (- dv)
  /\ (0 < d -> d < 360 -> 0 < dv).
Proof.
  intros E.
  destruct (inclination_change_delta_v_inv h d dv E) as [Hr ->].
  rewrite inclination_change_delta_v_ok, inclination_value_opp by exact Hr.
  split; [reflexivity |].
  intros H0 H360; unfold inclination_value.
  assert (V : 0 < sqrt (MU_EARTH / (R_EARTH + h))) by positivity.
  assert (Hpi := PI_RGT_0).
  assert (S : 0 < sin (math_radians d / 2))
    by (apply sin_gt_0; unfold math_radians; nra).
  nra.
Qed.

Lemma inclination_change_negative_angle_witness :
  inclination_change_delta_v 500 (- 5)
  = Ok (- inclination_value 500 5)
  /\ 0 < inclination_value 500 5.
Proof.
  assert (E : inclination_change_delta_v 500 5
              = Ok (inclination_value 500 5))
    by (apply inclination_change_delta_v_ok; unfold R_EARTH; lra).
  destruct (inclination_change_negative_angle 500 5 _ E) as [Hn Hp].
  split; [exact Hn | apply Hp; lra].
Defined.



(** * Further properties of the vehicle sizing *)

(** The configuration computed when no division fails. *)
Lemma otv_sizing_value (payload dv isp sf twr : R) :
  payload <> 0 -> sf <> 1 -> isp <> 0 ->
  let dry_mass := payload / (1 - sf) in
  let m0 := dry_mass * exp (dv * 1000 / (isp * g0)) in
  dry_mass <> 0 /\ m0 <> 0
  /\ otv_sizing payload dv isp sf twr
     = Ok (mkVehicleConfiguration payload (dry_mass - payload) (m0 - dry_mass)
             m0 (payload / m0) ((m0 - dry_mass) / m0)
             ((dry_mass - payload) / m0) (m0 * g0 * twr) twr isp).
Proof.
  intros Hp Hsf Hisp dry_mass m0.
  assert (Hden : 1 - sf <> 0) by lra.
  assert (Hdry : dry_mass <> 0).
  { unfold dry_mass, Rdiv; apply Rmult_integral_contrapositive_currified;
      [exact Hp | apply Rinv_neq_0_compat; exact Hden]. }
  assert (Hm0 : m0 <> 0).
  { unfold m0; apply Rmult_integral_contrapositive_currified;
      [exact Hdry | apply Rgt_not_eq, exp_pos]. }
  split; [exact Hdry |]; split; [exact Hm0 |].
  unfold otv_sizing.
  rewrite fdiv_ok by exact Hden; cbn [bind].
  rewrite fdiv_ok by (unfold g0; nra); cbn [bind].
  fold dry_mass; fold m0.
  rewrite !fdiv_ok by exact Hm0; reflexivity.
Qed.

Lemma otv_sizing_raises (payload dv isp sf twr : R) :
  payload = 0 \/ sf = 1 \/ isp = 0 ->
  otv_sizing payload dv isp sf twr = Raise ZeroDivisionError.
Proof.
  intros H; unfold otv_sizing.
  destruct (Req_dec_T sf 1) as [-> | Hsf].
  { replace (1 - 1) with 0 by ring; now rewrite fdiv_zero. }
  rewrite fdiv_ok by lra; cbn [bind].
  destruct (Req_dec_T isp 0) as [-> | Hisp].
  { rewrite Rmult_0_l, fdiv_zero; reflexivity. }
  rewrite fdiv_ok by (unfold g0; nra); cbn [bind].
  destruct H as [-> | [-> | ->]]; try contradiction.
  replace (0 / (1 - sf) * exp (dv * 1000 / (isp * g0))) with 0
    by (unfold Rdiv; ring).
  now rewrite fdiv_zero.
Qed.



(** X14: a structural fraction above one is not rejected: with a positive
    payload the configuration comes back with a negative total mass and
    a negative structural mass. *)
Theorem otv_sizing_fraction_above_one (payload dv isp sf twr : R) :
  0 < payload -> 1 < sf -> isp <> 0 ->
  exists cfg, otv_sizing payload dv isp sf twr = Ok cfg
              /\ total_mass_kg cfg < 0 /\ structural_mass_kg cfg < 0.
Proof.
  intros Hp Hsf Hisp.
  destruct (otv_sizing_value payload dv isp sf twr) as (_ & _ & E);
    [lra | lra | exact Hisp |].
  eexists; split; [exact E |]; simpl.
  assert (Hi : / (1 - sf) < 0) by (apply Rinv_lt_0_compat; lra).
  assert (Hdry : payload / (1 - sf) < 0) by (unfold Rdiv; nra).
  assert (Hexp := exp_pos (dv * 1000 / (isp * g0))).
  split; nra.
Qed.

Lemma otv_sizing_fraction_above_one_witness :
  exists cfg, otv_sizing 500 1 300 1.5 0.3 = Ok cfg
              /\ total_mass_kg cfg < 0 /\ structural_mass_kg cfg < 0.
Proof. apply (otv_sizing_fraction_above_one 500 1 300 1.5 0.3); lra. Defined.

(** A returned configuration is the computed one. *)
Lemma otv_sizing_inv (payload dv isp sf twr : R)
  (cfg : VehicleConfiguration) :
  otv_sizing payload dv isp sf twr = Ok cfg ->
  let dry_mass := payload / (1 - sf) in
  let m0 := dry_mass * exp (dv * 1000 / (isp * g0)) in
  payload <> 0 /\ sf <> 1 /\ isp <> 0 /\ dry_mass <> 0 /\ m0 <> 0
  /\ cfg = mkVehicleConfiguration payload (dry_mass - payload)
             (m0 - dry_mass) m0 (payload / m0) ((m0 - dry_mass) / m0)
             ((dry_mass - payload) / m0) (m0 * g0 * twr) twr isp.
Proof.
  intros E dry_mass m0.
  assert (D : (payload <> 0 /\ sf <> 1 /\ isp <> 0)
              \/ (payload = 0 \/ sf = 1 \/ isp = 0)).
  { destruct (Req_dec_T payload 0), (Req_dec_T sf 1), (Req_dec_T isp 0);
      tauto. }
  destruct D as [(Hp & Hsf & Hisp) | D];
    [| rewrite (otv_sizing_raises _ dv _ _ twr D) in E; discriminate E].
  destruct (otv_sizing_value payload dv isp sf twr Hp Hsf Hisp)
    as (Hdry & Hm0 & E').
  rewrite E' in E; injection E as <-.
  repeat split; assumption.
Qed.

(** X15: with no delta-v to deliver the vehicle carries no propellant:
    the propellant mass and fraction are zero and the total mass is the
    dry mass [payload / (1 - structural_mass_fraction)]. *)
Theorem otv_sizing_no_delta_v (payload isp sf twr : R) :
  payload <> 0 -> sf <> 1 -> isp <> 0 ->
  exists cfg, otv_sizing payload 0 isp sf twr = Ok cfg
    /\ propellant_mass_kg cfg = 0
    /\ propellant_fraction cfg = 0
    /\ total_mass_kg cfg = payload / (1 - sf).
Proof.
  intros Hp Hsf Hisp.
  destruct (otv_sizing_value payload 0 isp sf twr Hp Hsf Hisp)
    as (_ & _ & E).
  cbv zeta in E.
  replace (0 * 1000 / (isp * g0)) with 0 in E by (unfold Rdiv; ring).
  rewrite exp_0, Rmult_1_r in E.
  eexists; split; [exact E |]; simpl.
  repeat split; unfold Rdiv; ring.
Qed.

Lemma otv_sizing_no_delta_v_witness :
  exists cfg, otv_sizing 500 0 300 0.1 0.3 = Ok cfg
    /\ propellant_mass_kg cfg = 0
    /\ propellant_fraction cfg = 0
    /\ total_mass_kg cfg = 500 / (1 - 0.1).
Proof. apply (otv_sizing_no_delta_v 500 300 0.1 0.3); lra. Defined.

(** X16: the configuration satisfies the rocket equation it was sized
    from: [isp * g0 * ln (total / (total - propellant))] gives back the
    delta-v in m/s; for a positive payload, a structural fraction below
    one and a positive specific impulse the propellant has the sign of
    the delta-v. *)
Theorem otv_sizing_rocket_equation (payload dv isp sf twr : R)
  (cfg : VehicleConfiguration) :
  0 < payload -> sf < 1 -> 0 < isp ->
  otv_sizing payload dv isp sf twr = Ok cfg ->
  isp_sec cfg * g0
  * ln (total_mass_kg cfg / (total_mass_kg cfg - propellant_mass_kg cfg))
  = dv * 1000
  /\ (0 < dv -> 0 < propellant_mass_kg cfg)
  /\ (dv < 0 -> propellant_mass_kg cfg < 0).
Proof.
  intros Hp Hsf Hisp E.
  destruct (otv_sizing_inv _ _ _ _ _ _ E) as (_ & _ & _ & Hdry & _ & ->).
  simpl.
  set (dry_mass := payload / (1 - sf)) in *.
  set (e := dv * 1000 / (isp * g0)).
  assert (Hg : 0 < isp * g0) by (unfold g0; nra).
  assert (Hd : 0 < dry_mass) by (unfold dry_mass; positivity).
  split; [| split].
  - replace (dry_mass * exp e - (dry_mass * exp e - dry_mass))
      with dry_mass by ring.
    replace (dry_mass * exp e / dry_mass) with (exp e)
      by (field; exact Hdry).
    rewrite ln_exp; unfold e; field; repeat split; unfold g0; lra.
  - intros Hdv.
    assert (He : 0 < e) by (unfold e; apply quotient_pos; lra).
    assert (X := exp_increasing 0 e He); rewrite exp_0 in X; nra.
  - intros Hdv.
    assert (He : e < 0).
    { unfold e, Rdiv.
      assert (Hi : 0 < / (isp * g0)) by (apply Rinv_0_lt_compat; exact Hg).
      nra. }
    assert (X := exp_increasing e 0 He); rewrite exp_0 in X; nra.
Qed.

Lemma otv_sizing_rocket_equation_witness :
  exists cfg, otv_sizing 500 1 300 0.1 0.3 = Ok cfg
    /\ isp_sec cfg * g0
       * ln (total_mass_kg cfg
             / (total_mass_kg cfg - propellant_mass_kg cfg))
       = 1 * 1000
    /\ 0 < propellant_mass_kg cfg.
Proof.
  destruct (otv_sizing_value 500 1 300 0.1 0.3) as (_ & _ & E);
    [lra | lra | lra |].
  eexists; split; [exact E |].
  destruct (otv_sizing_rocket_equation 500 1 300 0.1 0.3 _
              ltac:(lra) ltac:(lra) ltac:(lra) E) as (Heq & Hpos & _).
  split; [exact Heq | apply Hpos; lra].
Defined.

(** X17: the structural mass is the requested fraction of the dry mass
    (structure plus payload), while the field [structural_fraction] of
    the result, taken of the total mass, is that fraction scaled by the
    share of the vehicle that is not propellant. *)
Theorem otv_sizing_structural_share (payload dv isp sf twr : R)
  (cfg : VehicleConfiguration) :
  otv_sizing payload dv isp sf twr = Ok cfg ->
  structural_mass_kg cfg
  = sf * (structural_mass_kg cfg + payload_mass_kg cfg)
  /\ structural_fraction cfg = sf * (1 - propellant_fraction cfg).
Proof.
  intros E.
  destruct (otv_sizing_inv _ _ _ _ _ _ E)
    as (Hp & Hsf & _ & Hdry & Hm0 & ->); simpl.
  set (x := exp (dv * 1000 / (isp * g0))) in *.
  assert (Hx : x <> 0) by (apply Rgt_not_eq, exp_pos).
  assert (Hden : 1 - sf <> 0) by lra.
  split; field; repeat split; assumption.
Qed.

Lemma otv_sizing_structural_share_witness :
  exists cfg, otv_sizing 500 1 300 0.1 0.3 = Ok cfg
    /\ structural_mass_kg cfg
       = 0.1 * (structural_mass_kg cfg + payload_mass_kg cfg)
    /\ structural_fraction cfg = 0.1 * (1 - propellant_fraction cfg).
Proof.
  destruct (otv_sizing_value 500 1 300 0.1 0.3) as (_ & _ & E);
    [lra | lra | lra |].
  eexists; split; [exact E |].
  exact (otv_sizing_structural_share 500 1 300 0.1 0.3 _ E).
Defined.

(** X18: budgets compose.  The total mass sized for the sum of two
    delta-v budgets, times the dry mass, is the product of the total
    masses sized for each budget alone: summing the maneuvers before
    sizing is staging the exponentials. *)
Theorem otv_sizing_budget_composes (payload dv1 dv2 isp sf twr : R) :
  payload <> 0 -> sf <> 1 -> isp <> 0 ->
  exists c1 c2 c12,
    otv_sizing payload dv1 isp sf twr = Ok c1
    /\ otv_sizing payload dv2 isp sf twr = Ok c2
    /\ otv_sizing payload (dv1 + dv2) isp sf twr = Ok c12
    /\ total_mass_kg c12 * (payload / (1 - sf))
       = total_mass_kg c1 * total_mass_kg c2.
Proof.
  intros Hp Hsf Hisp.
  destruct (otv_sizing_value payload dv1 isp sf twr Hp Hsf Hisp)
    as (_ & _ & E1).
  destruct (otv_sizing_value payload dv2 isp sf twr Hp Hsf Hisp)
    as (_ & _ & E2).
  destruct (otv_sizing_value payload (dv1 + dv2) isp sf twr Hp Hsf Hisp)
    as (_ & _ & E12).
  do 3 eexists; repeat split; [exact E1 | exact E2 | exact E12 |]; simpl.
  replace ((dv1 + dv2) * 1000 / (isp * g0))
    with (dv1 * 1000 / (isp * g0) + dv2 * 1000 / (isp * g0))
    by (unfold Rdiv; ring).
  rewrite exp_plus; ring.
Qed.

Lemma otv_sizing_budget_composes_witness :
  exists c1 c2 c12,
    otv_sizing 500 1 300 0.1 0.3 = Ok c1
    /\ otv_sizing 500 2 300 0.1 0.3 = Ok c2
    /\ otv_sizing 500 (1 + 2) 300 0.1 0.3 = Ok c12
    /\ total_mass_kg c12 * (500 / (1 - 0.1))
       = total_mass_kg c1 * total_mass_kg c2.
Proof. apply (otv_sizing_budget_composes 500 1 2 300 0.1 0.3); lra. Defined.

(** X19: for a positive payload, a structural fraction below one and a
    positive specific impulse, a larger delta-v budget gives a strictly
    heavier vehicle and strictly more propellant. *)
Theorem otv_sizing_monotone (payload dv1 dv2 isp sf twr : R)
  (c1 c2 : VehicleConfiguration) :
  0 < payload -> sf < 1 -> 0 < isp -> dv1 < dv2 ->
  otv_sizing payload dv1 isp sf twr = Ok c1 ->
  otv_sizing payload dv2 isp sf twr = Ok c2 ->
  total_mass_kg c1 < total_mass_kg c2
  /\ propellant_mass_kg c1 < propellant_mass_kg c2
  /\ structural_mass_kg c1 = structural_mass_kg c2.
Proof.
  intros Hp Hsf Hisp Hlt E1 E2.
  destruct (otv_sizing_inv _ _ _ _ _ _ E1) as (_ & _ & _ & _ & _ & ->).
  destruct (otv_sizing_inv _ _ _ _ _ _ E2) as (_ & _ & _ & _ & _ & ->).
  simpl.
  assert (Hd : 0 < payload / (1 - sf)) by positivity.
  assert (Hg : 0 < / (isp * g0))
    by (apply Rinv_0_lt_compat; unfold g0; nra).
  assert (He : dv1 * 1000 / (isp * g0) < dv2 * 1000 / (isp * g0))
    by (unfold Rdiv; nra).
  assert (X := exp_increasing _ _ He).
  repeat split; nra.
Qed.

Lemma otv_sizing_monotone_witness :
  exists c1 c2,
    otv_sizing 500 1 300 0.1 0.3 = Ok c1
    /\ otv_sizing 500 2 300 0.1 0.3 = Ok c2
    /\ total_mass_kg c1 < total_mass_kg c2.
Proof.
  destruct (otv_sizing_value 500 1 300 0.1 0.3) as (_ & _ & E1);
    [lra | lra | lra |].
  destruct (otv_sizing_value 500 2 300 0.1 0.3) as (_ & _ & E2);
    [lra | lra | lra |].
  do 2 eexists; split; [exact E1 |]; split; [exact E2 |].
  apply (otv_sizing_monotone 500 1 2 300 0.1 0.3 _ _
           ltac:(lra) ltac:(lra) ltac:(lra) ltac:(lra) E1 E2).
Defined.

(** X20: the sizing is linear in the payload: a payload [k] times as
    large gets every mass and the thrust [k] times as large, and the
    same three fractions. *)
Theorem otv_sizing_scales_with_payload (payload dv isp sf twr k : R)
  (cfg : VehicleConfiguration) :
  k <> 0 ->
  otv_sizing payload dv isp sf twr = Ok cfg ->
  exists cfg',
    otv_sizing (k * payload) dv isp sf twr = Ok cfg'
    /\ total_mass_kg cfg' = k * total_mass_kg cfg
    /\ propellant_mass_kg cfg' = k * propellant_mass_kg cfg
    /\ structural_mass_kg cfg' = k * structural_mass_kg cfg
    /\ thrust_N cfg' = k * thrust_N cfg
    /\ payload_fraction cfg' = payload_fraction cfg
    /\ propellant_fraction cfg' = propellant_fraction cfg
    /\ structural_fraction cfg' = structural_fraction cfg.
Proof.
  intros Hk E.
  destruct (otv_sizing_inv _ _ _ _ _ _ E)
    as (Hp & Hsf & Hisp & _ & _ & ->).
  assert (Hkp : k * payload <> 0)
    by (apply Rmult_integral_contrapositive_currified; assumption).
  destruct (otv_sizing_value (k * payload) dv isp sf twr Hkp Hsf Hisp)
    as (_ & _ & E').
  eexists; split; [exact E' |]; simpl.
  set (x := exp (dv * 1000 / (isp * g0))).
  assert (Hx : x <> 0) by (apply Rgt_not_eq, exp_pos).
  assert (Hden : 1 - sf <> 0) by lra.
  repeat split; field; repeat split; assumption.
Qed.

Lemma otv_sizing_scales_with_payload_witness :
  exists cfg cfg',
    otv_sizing 500 1 300 0.1 0.3 = Ok cfg
    /\ otv_sizing (2 * 500) 1 300 0.1 0.3 = Ok cfg'
    /\ total_mass_kg cfg' = 2 * total_mass_kg cfg
    /\ propellant_fraction cfg' = propellant_fraction cfg.
Proof.
  destruct (otv_sizing_value 500 1 300 0.1 0.3) as (_ & _ & E);
    [lra | lra | lra |].
  destruct (otv_sizing_scales_with_payload 500 1 300 0.1 0.3 2 _
              ltac:(lra) E) as (cfg' & E' & Ht & _ & _ & _ & _ & Hf & _).
  match type of E with _ = Ok ?c => exists c end.
  exists cfg'; split; [exact E |]; split; [exact E' |].
  split; [exact Ht | exact Hf].
Defined.

(** * Further properties of the LTAN solver *)

(** ** Whole days of LTAN *)




(** ** Exceptions of the solver *)

Lemma for_each_raise_step {A S : Type} (body : S -> A -> result S)
  (items : list A) :
  forall (s : S) (e : PyExc),
    for_each body items s = Raise e ->
    exists s' x, In x items /\ body s' x = Raise e.
Proof.
  induction items as [| x rest IH]; intros s e E; cbn [for_each] in E.
  - discriminate E.
  - destruct (body s x) as [s' | e'] eqn:B; cbn [bind] in E.
    + destruct (IH s' e E) as (s'' & y & Hy & By).
      exists s'', y; split; [now right | exact By].
    + injection E as ->; exists s, x; split; [now left | exact B].
Qed.

(** The exception of a step is the one [hohmann_delta_v] raises on the
    current radius. *)
Lemma ltan_step_raise_kind (h0 rate d : R) (st : SearchState) (h : Z)
  (e : PyExc) :
  0 < R_EARTH + IZR h ->
  ltan_step h0 rate d st h = Raise e ->
  (R_EARTH + h0 = 0 /\ e = ZeroDivisionError)
  \/ (R_EARTH + h0 < 0 /\ e = ValueError).
Proof.
  intros Ha E; destruct st as [best min_dv]; unfold ltan_step in E.
  rewrite candidate_cos_i_ok in E by exact Ha; cbn [bind] in E.
  destruct (Rle_dec (Rabs (cos_i_value rate h)) 1) as [Hc | _];
    [| discriminate E].
  rewrite math_acos_ok in E by exact Hc; cbn [bind] in E.
  destruct (hohmann_delta_v_first_radius (R_EARTH + h0) (R_EARTH + IZR h))
    as [Hz Hn].
  destruct (Rtotal_order (R_EARTH + h0) 0) as [H0 | [H0 | H0]].
  - rewrite (Hn H0) in E; injection E as <-; right; split; [exact H0 | reflexivity].
  - rewrite (Hz H0) in E; injection E as <-; left; split; [exact H0 | reflexivity].
  - rewrite hohmann_delta_v_ok in E by assumption; cbn [bind] in E.
    rewrite inclination_change_delta_v_ok in E by exact Ha; cbn [bind] in E.
    destruct (lt_xreal _ min_dv); discriminate E.
Qed.

(** X22: the exceptions of the solver.  A zero duration raises
    [ZeroDivisionError] before any altitude is tried.  Otherwise the
    solver raises exactly when the current radius is not positive and
    some altitude of the grid is feasible: [ZeroDivisionError] for the
    radius zero, [ValueError] for a negative one. *)
Theorem ltan_drift_adjustment_exceptions (li lt h0 d : R) :
  (d = 0 -> ltan_drift_adjustment li lt h0 d = Raise ZeroDivisionError)
  /\ (d <> 0 ->
      ((exists e, ltan_drift_adjustment li lt h0 d = Raise e)
       <-> R_EARTH + h0 <= 0
           /\ exists h, In h altitude_grid
                        /\ feasible (delta_ltan_deg li lt / d) h)
      /\ forall e, ltan_drift_adjustment li lt h0 d = Raise e ->
           (R_EARTH + h0 = 0 /\ e = ZeroDivisionError)
           \/ (R_EARTH + h0 < 0 /\ e = ValueError)).
Proof.
  split; [intros ->; apply ltan_drift_adjustment_zero_duration |].
  intros Hd.
  assert (C := ltan_drift_adjustment_cases li lt h0 d Hd); cbv zeta in C.
  split; [split |].
  - intros [e E]; rewrite E in C; exact C.
  - intros [Hneg (h & Hin & Hf)].
    destruct (ltan_drift_adjustment li lt h0 d) as [[s |] | e].
    + simpl in C; destruct C as (_ & _ & _ & _ & _ & _ & Hpos & _); lra.
    + elim (C h Hin Hf).
    + now exists e.
  - intros e E; rewrite ltan_drift_adjustment_unfold in E by exact Hd.
    destruct (for_each (ltan_step h0 (delta_ltan_deg li lt / d) d)
                altitude_grid (None, PosInf)) as [st | e'] eqn:L;
      cbn [bind] in E; [discriminate E | injection E as ->].
    destruct (for_each_raise_step _ _ _ _ L) as (st & h & Hin & B).
    exact (ltan_step_raise_kind _ _ _ _ _ _ (altitude_grid_radius h Hin) B).
Qed.

Lemma ltan_drift_adjustment_exceptions_witness :
  ltan_drift_adjustment 9 6 500 0 = Raise ZeroDivisionError
  /\ ltan_drift_adjustment 9 9 (- R_EARTH) 90 = Raise ZeroDivisionError.
Proof.
  split.
  - destruct (ltan_drift_adjustment_exceptions 9 6 500 0) as [Hz _].
    apply Hz; reflexivity.
  - assert (Hd : 90 <> 0) by lra.
    destruct (ltan_drift_adjustment_exceptions 9 9 (- R_EARTH) 90)
      as [_ Hnz].
    destruct (Hnz Hd) as [[_ Hraise] Hkind].
    destruct Hraise as [e E].
    { split; [lra |].
      exists 400%Z; split;
        [apply altitude_grid_spec; split; [lia | reflexivity] |].
      rewrite delta_ltan_deg_same.
      replace (0 / 90) with 0 by lra.
      apply feasible_no_drift, altitude_grid_spec; split; [lia | reflexivity]. }
    rewrite E; destruct (Hkind e E) as [[_ ->] | [Hlt _]];
      [reflexivity | lra].
Defined.

(** ** No LTAN change *)

Lemma inclination_value_pos (h d : R) :
  0 < R_EARTH + h -> 0 < d -> d < 360 -> 0 < inclination_value h d.
Proof.
  intros Hr H0 H360; unfold inclination_value.
  assert (V : 0 < sqrt (MU_EARTH / (R_EARTH + h))) by positivity.
  assert (Hpi := PI_RGT_0).
  assert (S : 0 < sin (math_radians d / 2))
    by (apply sin_gt_0; unfold math_radians; nra).
  nra.
Qed.

Lemma math_degrees_right_angle : math_degrees (PI / 2) = 90.
Proof. unfold math_degrees; field; apply Rgt_not_eq, PI_RGT_0. Qed.

(** X23: asking for no LTAN change is not free.  From a positive
    current radius and for a duration that is not zero the solver
    returns a solution with a required drift of zero and an inclination
    of exactly 90 degrees, whose delta-v is strictly positive: it pays
    the plane change of 8.6 degrees from the reference 98.6 degrees. *)
Theorem ltan_drift_adjustment_no_change (l h0 d : R) :
  d <> 0 -> 0 < R_EARTH + h0 ->
  exists s,
    ltan_drift_adjustment l l h0 d = Ok (Some s)
    /\ required_drift_deg_per_day s = 0
    /\ new_inclination_deg s = 90
    /\ inclination_value (IZR (new_altitude_km s)) 8.6
       <= total_delta_v_kms s
    /\ 0 < total_delta_v_kms s.
Proof.
  intros Hd H0.
  destruct (ltan_drift_adjustment_no_shift l h0 d Hd H0) as [s Hs].
  exists s; split; [exact Hs |].
  assert (C := ltan_drift_adjustment_cases l l h0 d Hd); cbv zeta in C.
  rewrite Hs in C; simpl in C.
  rewrite delta_ltan_deg_same in C.
  replace (0 / d) with 0 in C by (unfold Rdiv; ring).
  destruct C as (_ & Hin & (c & Ec & _ & Hi) & Hcost & Hr & _ & _ & _).
  assert (Ha := altitude_grid_radius _ Hin).
  rewrite candidate_cos_i_ok, cos_i_value_no_drift in Ec by exact Ha.
  injection Ec as <-.
  rewrite acos_0, math_degrees_right_angle in Hi.
  rewrite candidate_cost_ok in Hcost by assumption.
  rewrite cos_i_value_no_drift, acos_0, plane_change_angle_degrees,
    math_degrees_right_angle in Hcost.
  replace (Rabs (90 - 98.6)) with 8.6 in Hcost
    by (rewrite Rabs_left by lra; lra).
  injection Hcost as Hcost.
  assert (P := inclination_value_pos (IZR (new_altitude_km s)) 8.6 Ha
                 ltac:(lra) ltac:(lra)).
  assert (N := hohmann_value_nonneg (R_EARTH + h0)
                 (R_EARTH + IZR (new_altitude_km s))).
  repeat split; try assumption; lra.
Qed.

Lemma ltan_drift_adjustment_no_change_witness :
  exists s,
    ltan_drift_adjustment 9 9 500 90 = Ok (Some s)
    /\ required_drift_deg_per_day s = 0
    /\ new_inclination_deg s = 90
    /\ inclination_value (IZR (new_altitude_km s)) 8.6
       <= total_delta_v_kms s
    /\ 0 < total_delta_v_kms s.
Proof.
  apply (ltan_drift_adjustment_no_change 9 500 90);
    [lra | unfold R_EARTH; lra].
Defined.

(** ** The window of drift rates the grid can realise *)

Lemma drift_factor_magnitude_pos (a : R) :
  0 < a -> 0 < drift_factor_magnitude a.
Proof.
  intros Ha; unfold drift_factor_magnitude.
  assert (J := J2_pos); positivity.
Qed.

Lemma cos_i_value_abs (rate : R) (h : Z) :
  0 < R_EARTH + IZR h ->
  Rabs (cos_i_value rate h)
  = Rabs rate * (PI / 180) / 86400 / drift_factor_magnitude (R_EARTH + IZR h).
Proof.
  intros Ha.
  assert (HD := drift_factor_magnitude_pos _ Ha).
  assert (Hpi := PI_RGT_0).
  unfold cos_i_value, math_radians; cbv zeta.
  replace (-1.5 * J2 * R_EARTH ^ 2
           * sqrt (MU_EARTH / (R_EARTH + IZR h) ^ 3) / (R_EARTH + IZR h) ^ 2)
    with (- drift_factor_magnitude (R_EARTH + IZR h))
    by (unfold drift_factor_magnitude; lra).
  set (D := drift_factor_magnitude (R_EARTH + IZR h)) in *.
  replace (rate * (PI / 180) / 86400 / - D)
    with (rate * (- (PI / 180 / 86400 / D))) by (field; lra).
  assert (K : 0 < PI / 180 / 86400 / D) by positivity.
  rewrite Rabs_mult, (Rabs_left (- _)) by lra.
  field; lra.
Qed.

(** On the grid the drift factor lies between 1.2342e-6 and 1.7344e-6
    rad/s. *)
Lemma drift_factor_magnitude_grid (h : Z) :
  In h altitude_grid ->
  1.5 * J2 * 0.76 * 0.001 < drift_factor_magnitude (R_EARTH + IZR h)
  /\ drift_factor_magnitude (R_EARTH + IZR h) < 1.5 * J2 * 0.89 * 0.0012.
Proof.
  intros Hin.
  apply altitude_grid_spec in Hin as [[Hlo Hhi] _].
  apply IZR_le in Hlo, Hhi.
  set (a := R_EARTH + IZR h).
  assert (A1 : 6771 <= a) by (unfold a, R_EARTH; lra).
  assert (A2 : a <= 7266) by (unfold a, R_EARTH; lra).
  assert (Ha : 0 < a) by lra.
  assert (S1 : 6771 * 6771 <= a * a) by nra.
  assert (S2 : a * a <= 7266 * 7266) by nra.
  assert (C1 : 6771 * 6771 * 6771 <= a * a * a) by nra.
  assert (C2 : a * a * a <= 7266 * 7266 * 7266) by nra.
  assert (E2 : a ^ 2 = a * a) by ring.
  assert (E3 : a ^ 3 = a * a * a) by ring.
  assert (Hmu := MU_EARTH_pos).
  assert (Q : 0 < MU_EARTH / a ^ 3) by positivity.
  assert (N1 : 0.001 < sqrt (MU_EARTH / a ^ 3)).
  { rewrite <- (sqrt_square 0.001) by lra.
    apply sqrt_lt_1_alt; split; [lra |].
    apply Rmult_lt_reg_r with (a ^ 3); [positivity |].
    replace (MU_EARTH / a ^ 3 * a ^ 3) with MU_EARTH by (field; lra).
    rewrite E3; unfold MU_EARTH; lra. }
  assert (N2 : sqrt (MU_EARTH / a ^ 3) < 0.0012).
  { rewrite <- (sqrt_square 0.0012) by lra.
    apply sqrt_lt_1_alt; split; [lra |].
    apply Rmult_lt_reg_r with (a ^ 3); [positivity |].
    replace (MU_EARTH / a ^ 3 * a ^ 3) with MU_EARTH by (field; lra).
    rewrite E3; unfold MU_EARTH; lra. }
  set (n := sqrt (MU_EARTH / a ^ 3)) in *.
  assert (R1 : 0.76 * (a * a) <= R_EARTH ^ 2) by (unfold R_EARTH; lra).
  assert (R2 : R_EARTH ^ 2 <= 0.89 * (a * a)) by (unfold R_EARTH; lra).
  assert (HR : 0 < R_EARTH ^ 2) by positivity.
  assert (J := J2_pos).
  assert (P1 : 0.76 * 0.001 * (a * a) < R_EARTH ^ 2 * n) by nra.
  assert (P2 : R_EARTH ^ 2 * n < 0.89 * 0.0012 * (a * a)) by nra.
  assert (Ha2 : 0 < a * a) by nra.
  unfold drift_factor_magnitude; fold a; fold n; rewrite E2.
  split.
  - apply Rmult_lt_reg_r with (a * a); [exact Ha2 |].
    match goal with
    | |- context [?x / (a * a) * (a * a)] =>
        replace (x / (a * a) * (a * a)) with x by (field; lra)
    end.
    nra.
  - apply Rmult_lt_reg_r with (a * a); [exact Ha2 |].
    match goal with
    | |- context [?x / (a * a) * (a * a)] =>
        replace (x / (a * a) * (a * a)) with x by (field; lra)
    end.
    nra.
Qed.

Lemma grid_infeasible_fast (rate : R) (h : Z) :
  9 <= Rabs rate -> In h altitude_grid -> ~ feasible rate h.
Proof.
  intros Hrate Hin.
  assert (Ha := altitude_grid_radius h Hin).
  destruct (drift_factor_magnitude_grid h Hin) as [_ Hmax].
  assert (HD := drift_factor_magnitude_pos _ Ha).
  rewrite feasible_iff, cos_i_value_abs by exact Ha.
  set (D := drift_factor_magnitude (R_EARTH + IZR h)) in *.
  assert (Hpi : 3 < PI) by (assert (P := PI2_3_2); lra).
  assert (X : D < Rabs rate * (PI / 180) / 86400)
    by (unfold J2 in Hmax; nra).
  intros Hle.
  assert (Y : Rabs rate * (PI / 180) / 86400 / D * D
              = Rabs rate * (PI / 180) / 86400) by (field; lra).
  nra.
Qed.

Lemma grid_feasible_slow (rate : R) (h : Z) :
  Rabs rate <= 4.5 -> In h altitude_grid -> feasible rate h.
Proof.
  intros Hrate Hin.
  assert (Ha := altitude_grid_radius h Hin).
  destruct (drift_factor_magnitude_grid h Hin) as [Hmin _].
  assert (HD := drift_factor_magnitude_pos _ Ha).
  rewrite feasible_iff, cos_i_value_abs by exact Ha.
  set (D := drift_factor_magnitude (R_EARTH + IZR h)) in *.
  assert (Hpi := PI_4); assert (Hpi0 := PI_RGT_0).
  assert (N := Rabs_pos rate).
  assert (X : Rabs rate * (PI / 180) / 86400 < D)
    by (unfold J2 in Hmin; nra).
  apply Rmult_le_reg_r with D; [exact HD |].
  replace (Rabs rate * (PI / 180) / 86400 / D * D)
    with (Rabs rate * (PI / 180) / 86400) by (field; lra).
  lra.
Qed.

(** X24: a drift of 9 degrees per day or more is out of reach: when the
    normalised LTAN difference divided by the duration is at least 9
    deg/day in absolute value, no altitude of the grid is feasible and
    the solver returns "no solution", whatever the current altitude. *)
Theorem ltan_drift_adjustment_too_fast (li lt h0 d : R) :
  d <> 0 -> 9 <= Rabs (delta_ltan_deg li lt / d) ->
  ltan_drift_adjustment li lt h0 d = Ok None.
Proof.
  intros Hd Hrate.
  assert (C := ltan_drift_adjustment_cases li lt h0 d Hd); cbv zeta in C.
  destruct (ltan_drift_adjustment li lt h0 d) as [[s |] | e].
  - simpl in C; destruct C as (_ & Hin & (c & Ec & Hc & _) & _).
    elim (grid_infeasible_fast _ _ Hrate Hin).
    exists c; split; assumption.
  - reflexivity.
  - destruct C as [_ (h & Hin & Hf)].
    elim (grid_infeasible_fast _ _ Hrate Hin Hf).
Qed.

Lemma ltan_drift_adjustment_too_fast_witness :
  ltan_drift_adjustment 0 12 500 10 = Ok None.
Proof.
  apply ltan_drift_adjustment_too_fast; [lra |].
  rewrite delta_ltan_deg_half_turn.
  rewrite Rabs_left by lra; lra.
Defined.

(** X25: a drift of at most 4.5 degrees per day is within reach of every
    altitude of the grid: each one is feasible, and from a positive
    current radius the solver returns a solution. *)
Theorem ltan_drift_adjustment_slow_enough (li lt h0 d : R) :
  d <> 0 -> Rabs (delta_ltan_deg li lt / d) <= 4.5 ->
  (forall h, In h altitude_grid -> feasible (delta_ltan_deg li lt / d) h)
  /\ (0 < R_EARTH + h0 ->
      exists s, ltan_drift_adjustment li lt h0 d = Ok (Some s)).
Proof.
  intros Hd Hrate; split.
  - intros h Hin; apply grid_feasible_slow; assumption.
  - intros H0; apply ltan_drift_adjustment_returns; try assumption.
    exists 400%Z.
    assert (Hin : In 400%Z altitude_grid)
      by (apply altitude_grid_spec; split; [lia | reflexivity]).
    split; [exact Hin | apply grid_feasible_slow; assumption].
Qed.

Lemma delta_ltan_deg_default : delta_ltan_deg 9 6 = -45.
Proof.
  unfold delta_ltan_deg, floor_mod.
  replace (((6 - 9) * 15 + 180) / 360) with (3 / 8) by lra.
  rewrite (Zfloor_eq 0) by lra; lra.
Qed.

Lemma ltan_drift_adjustment_slow_enough_witness :
  exists s, ltan_drift_adjustment 9 6 500 90 = Ok (Some s).
Proof.
  assert (Hd : 90 <> 0) by lra.
  destruct (ltan_drift_adjustment_slow_enough 9 6 500 90 Hd) as [_ Hret].
  - rewrite delta_ltan_deg_default.
    rewrite Rabs_left by lra; lra.
  - apply Hret; unfold R_EARTH; lra.
Defined.

(** ** Ties between altitudes *)

Lemma py_range_sorted (start stop step : Z) :
  (0 < step)%Z -> StronglySorted Z.lt (py_range start stop step).
Proof.
  intros Hstep; unfold py_range.
  generalize (Z.to_nat ((stop - start + step - 1) / step)) as n.
  generalize 0%nat as first.
  intros first n; revert first.
  induction n as [| n IH]; intros first; simpl; constructor.
  - apply IH.
  - apply Forall_forall; intros x Hx.
    apply in_map_iff in Hx as (k & <- & Hk); apply in_seq in Hk.
    nia.
Qed.

Lemma sorted_split (pre post : list Z) (a : Z) :
  StronglySorted Z.lt (pre ++ a :: post) ->
  forall x, In x (pre ++ a :: post) -> (x < a)%Z -> In x pre.
Proof.
  induction pre as [| p pre IH]; simpl; intros Hs x Hx Hlt.
  - apply StronglySorted_inv in Hs as [_ Hall].
    destruct Hx as [-> | Hx]; [lia |].
    rewrite Forall_forall in Hall; specialize (Hall x Hx); lia.
  - apply StronglySorted_inv in Hs as [Hs _].
    destruct Hx as [-> | Hx]; [now left | right].
    exact (IH Hs x Hx Hlt).
Qed.

Lemma first_minimum_step (h0 rate d : R) (seen : list Z)
  (st : SearchState) (h : Z) :
  0 < R_EARTH + IZR h ->
  search_invariant h0 rate d seen st ->
  first_minimum_invariant h0 rate seen st ->
  match ltan_step h0 rate d st h with
  | Ok st' => first_minimum_invariant h0 rate (seen ++ [h]) st'
  | Raise _ => True
  end.
Proof.
  intros Ha Hinv Hfirst.
  assert (Keep : first_minimum_invariant h0 rate (seen ++ [h]) st).
  { unfold first_minimum_invariant in *.
    destruct (fst st) as [s |]; [| exact I].
    destruct Hfirst as (pre & post & -> & Hpre).
    exists pre, (post ++ [h]); split; [| exact Hpre].
    now rewrite <- app_assoc. }
  destruct (Rle_dec (Rabs (cos_i_value rate h)) 1) as [Hc | Hc].
  - assert (Hf : feasible rate h) by (apply feasible_iff; assumption).
    destruct st as [best min_dv].
    destruct (ltan_step_feasible h0 rate d best min_dv h Ha Hf)
      as [[_ [e ->]] | [_ (total & Hcost & ->)]]; [exact I |].
    destruct (lt_xreal total min_dv) eqn:Lt; [| exact Keep].
    unfold first_minimum_invariant; simpl.
    exists seen, []; split; [reflexivity |].
    intros h' Hin' Hf'.
    destruct best as [s |], min_dv as [m |]; simpl in Hinv;
      try contradiction.
    + destruct Hinv as (-> & _ & _ & _ & _ & _ & _ & Hmin).
      destruct (Hmin h' Hin' Hf') as (c & Ec & Hle).
      exists c; split; [exact Ec |].
      unfold lt_xreal in Lt.
      destruct (Rlt_dec total (total_delta_v_kms s)); [lra | discriminate Lt].
    + elim (Hinv h' Hin' Hf').
  - assert (Hn : ~ feasible rate h)
      by (intros Hf; apply Hc; apply feasible_iff; assumption).
    rewrite ltan_step_skips by assumption; exact Keep.
Qed.

Lemma first_minimum_loop (h0 rate d : R) (items : list Z) :
  forall (seen : list Z) (st : SearchState),
    (forall h, In h items -> 0 < R_EARTH + IZR h) ->
    search_invariant h0 rate d seen st ->
    first_minimum_invariant h0 rate seen st ->
    match for_each (ltan_step h0 rate d) items st with
    | Ok st' => first_minimum_invariant h0 rate (seen ++ items) st'
    | Raise _ => True
    end.
Proof.
  induction items as [| h rest IH]; intros seen st Hpos Hinv Hfirst;
    cbn [for_each].
  - rewrite app_nil_r; exact Hfirst.
  - assert (Ha := Hpos h (or_introl eq_refl)).
    assert (S1 := search_invariant_step h0 rate d seen st h Ha Hinv).
    assert (S2 := first_minimum_step h0 rate d seen st h Ha Hinv Hfirst).
    destruct (ltan_step h0 rate d st h) as [st' | e]; cbn [bind];
      [| exact I].
    specialize (IH (seen ++ [h]) st'
                   (fun k Hk => Hpos k (or_intror Hk)) S1 S2).
    rewrite <- app_assoc in IH; exact IH.
Qed.

(** X26: ties go to the lowest altitude.  The grid is tried upwards and
    a candidate replaces the best one only when strictly cheaper, so
    every feasible altitude of the grid below the returned one costs
    strictly more than the returned solution. *)
Theorem ltan_drift_adjustment_lowest_minimum (li lt h0 d : R)
  (s : LTANSolution) :
  ltan_drift_adjustment li lt h0 d = Ok (Some s) ->
  forall h, In h altitude_grid -> (h < new_altitude_km s)%Z ->
    feasible (delta_ltan_deg li lt / d) h ->
    exists c, candidate_cost h0 (delta_ltan_deg li lt / d) h = Ok c
              /\ total_delta_v_kms s < c.
Proof.
  intros Hs h Hin Hlt Hf.
  destruct (Req_dec_T d 0) as [-> | Hd];
    [rewrite ltan_drift_adjustment_zero_duration in Hs; discriminate Hs |].
  rewrite ltan_drift_adjustment_unfold in Hs by exact Hd.
  set (rate := delta_ltan_deg li lt / d) in *.
  assert (L := first_minimum_loop h0 rate d altitude_grid [] (None, PosInf)
                 altitude_grid_radius (fun k (F : In k []) => match F with end) I).
  destruct (for_each (ltan_step h0 rate d) altitude_grid (None, PosInf))
    as [[best min_dv] | e]; cbn [bind fst] in Hs; [| discriminate Hs].
  injection Hs as ->.
  unfold first_minimum_invariant in L; simpl in L.
  destruct L as (pre & post & Hgrid & Hpre).
  apply Hpre; [| exact Hf].
  assert (Hsorted : StronglySorted Z.lt altitude_grid)
    by (apply py_range_sorted; lia).
  change (py_range 400 900 5) with altitude_grid in Hgrid.
  rewrite Hgrid in Hsorted, Hin.
  exact (sorted_split pre post _ Hsorted h Hin Hlt).
Qed.

Lemma ltan_drift_adjustment_lowest_minimum_witness :
  exists s,
    ltan_drift_adjustment 9 9 500 90 = Ok (Some s)
    /\ forall h, In h altitude_grid -> (h < new_altitude_km s)%Z ->
         exists c, candidate_cost 500 (delta_ltan_deg 9 9 / 90) h = Ok c
                   /\ total_delta_v_kms s < c.
Proof.
  assert (Hd : 90 <> 0) by lra.
  assert (H0 : 0 < R_EARTH + 500) by (unfold R_EARTH; lra).
  destruct (ltan_drift_adjustment_no_shift 9 500 90 Hd H0) as [s Hs].
  exists s; split; [exact Hs |].
  intros h Hin Hlt.
  apply (ltan_drift_adjustment_lowest_minimum 9 9 500 90 s Hs h Hin Hlt).
  rewrite delta_ltan_deg_same.
  replace (0 / 90) with 0 by lra.
  apply feasible_no_drift; exact Hin.
Defined.

(** * The script *)

Lemma ltan_solution_total_nonneg (li lt h0 d : R) (s : LTANSolution) :
  ltan_drift_adjustment li lt h0 d = Ok (Some s) ->
  0 <= total_delta_v_kms s.
Proof.
  intros Hs.
  destruct (Req_dec_T d 0) as [-> | Hd];
    [rewrite ltan_drift_adjustment_zero_duration in Hs; discriminate Hs |].
  assert (C := ltan_drift_adjustment_cases li lt h0 d Hd); cbv zeta in C.
  rewrite Hs in C; simpl in C.
  destruct C as (_ & Hin & _ & Hcost & _ & _ & H0 & _).
  assert (Ha := altitude_grid_radius _ Hin).
  rewrite candidate_cost_ok in Hcost by assumption.
  injection Hcost as <-.
  apply Rplus_le_le_0_compat; [apply hohmann_value_nonneg |].
  destruct (math_degrees_range _
              (plane_change_angle_range
                 (cos_i_value (delta_ltan_deg li lt / d)
                              (new_altitude_km s)))) as [Lo Hi].
  apply inclination_value_nonneg; lra.
Qed.

Lemma otv_sizing_script_call (budget : R) :
  exists cfg,
    otv_sizing 500 budget 300 default_structural_mass_fraction
      default_thrust_to_weight_ratio = Ok cfg
    /\ payload_mass_kg cfg = 500
    /\ (0 <= budget -> 0 <= propellant_mass_kg cfg).
Proof.
  destruct (otv_sizing_value 500 budget 300 default_structural_mass_fraction
              default_thrust_to_weight_ratio) as (_ & _ & E);
    [lra | unfold default_structural_mass_fraction; lra | lra |].
  eexists; split; [exact E |]; simpl; split; [reflexivity |].
  intros Hb.
  assert (Hd : 0 < 500 / (1 - default_structural_mass_fraction))
    by (unfold default_structural_mass_fraction; lra).
  assert (He : 0 <= budget * 1000 / (300 * g0)).
  { unfold Rdiv; apply Rmult_le_pos; [lra |].
    apply Rlt_le, Rinv_0_lt_compat; unfold g0; lra. }
  assert (X : 1 <= exp (budget * 1000 / (300 * g0))).
  { destruct He as [He | <-]; [| rewrite exp_0; lra].
    assert (Y := exp_increasing _ _ He); rewrite exp_0 in Y; lra. }
  nra.
Qed.

(** X27: the script does not handle a search without solution.  With
    altitudes of positive radius and a duration that is not zero, it
    fails with [TypeError] exactly when no altitude of the grid is
    feasible, and otherwise ends with the configuration sized for a
    payload of 500 kg, a specific impulse of 300 s and the sum of the
    three delta-v; a plane change between 0 and 360 degrees then gives a
    propellant mass that is not negative. *)
Theorem designer_script_outcome
  (h1 h2 h_incl inc h_ltan ltan_i ltan_f ltan_dur : R) :
  0 < R_EARTH + h1 -> 0 < R_EARTH + h2 -> 0 < R_EARTH + h_incl ->
  0 < R_EARTH + h_ltan -> ltan_dur <> 0 ->
  let rate := delta_ltan_deg ltan_i ltan_f / ltan_dur in
  (designer_script h1 h2 h_incl inc h_ltan ltan_i ltan_f ltan_dur
   = Failed TypeError
   <-> forall h, In h altitude_grid -> ~ feasible rate h)
  /\ ((exists h, In h altitude_grid /\ feasible rate h) ->
      exists plan dv_inc solution cfg,
        choose_transfer h1 h2 = Ok plan
        /\ inclination_change_delta_v h_incl inc = Ok dv_inc
        /\ ltan_drift_adjustment ltan_i ltan_f h_ltan ltan_dur
           = Ok (Some solution)
        /\ otv_sizing 500
             (0 + delta_v_kms plan + dv_inc + total_delta_v_kms solution)
             300 default_structural_mass_fraction
             default_thrust_to_weight_ratio = Ok cfg
        /\ designer_script h1 h2 h_incl inc h_ltan ltan_i ltan_f ltan_dur
           = Done cfg
        /\ (0 <= inc <= 360 -> 0 <= propellant_mass_kg cfg)).
Proof.
  intros H1 H2 Hi Hl Hd rate.
  destruct (choose_transfer_total h1 h2 H1 H2) as [plan Eplan].
  assert (Einc := inclination_change_delta_v_ok h_incl inc Hi).
  assert (C := ltan_drift_adjustment_cases ltan_i ltan_f h_ltan ltan_dur Hd).
  cbv zeta in C; fold rate in C.
  unfold designer_script; rewrite Eplan, Einc; cbn [call and_then].
  destruct (ltan_drift_adjustment ltan_i ltan_f h_ltan ltan_dur)
    as [[s |] | e] eqn:El; cbn [call and_then subscript].
  - (* a solution *)
    destruct (otv_sizing_script_call
                (0 + delta_v_kms plan + inclination_value h_incl inc
                 + total_delta_v_kms s)) as (cfg & Ecfg & _ & Hprop).
    rewrite Ecfg; cbn [call].
    simpl in C.
    destruct C as (_ & Hin & (c & Ec & Hc & _) & _).
    split.
    + split; [discriminate |].
      intros Hnone; elim (Hnone _ Hin); exists c; split; assumption.
    + intros _; exists plan, (inclination_value h_incl inc), s, cfg.
      repeat split; try assumption; try reflexivity.
      intros [I0 I360]; apply Hprop.
      destruct (choose_transfer_inv h1 h2 plan Eplan)
        as (dvh & b & Hh & Hb & ->).
      assert (Nh : 0 <= dvh).
      { destruct (hohmann_delta_v_inv _ _ _ Hh) as (_ & _ & ->).
        apply hohmann_value_nonneg. }
      assert (Nb : 0 <= b).
      { rewrite best_bielliptic_ok in Hb by assumption.
        injection Hb as <-.
        repeat apply Rmin_glb; apply bielliptic_value_nonneg. }
      assert (Np : 0 <= delta_v_kms
                         (if Rlt_dec b dvh
                          then mkTransferPlan BiElliptic b
                          else mkTransferPlan Hohmann dvh))
        by (destruct (Rlt_dec b dvh); simpl; assumption).
      assert (Ni := inclination_value_nonneg h_incl inc I0 I360).
      assert (Ns : 0 <= total_delta_v_kms s)
        by (apply (ltan_solution_total_nonneg _ _ _ _ _ El)).
      lra.
  - (* no solution *)
    split; [split; [intros _; exact C | reflexivity] |].
    intros (h & Hin & Hf); elim (C h Hin Hf).
  - destruct C as [Hneg _]; lra.
Qed.

Lemma designer_script_outcome_witness :
  (exists cfg,
     designer_script 500 600 500 5 500 9 6 90 = Done cfg
     /\ 0 <= propellant_mass_kg cfg)
  /\ designer_script 500 600 500 5 500 0 12 10 = Failed TypeError.
Proof.
  assert (Hr : 0 < R_EARTH + 500) by (unfold R_EARTH; lra).
  assert (Hr' : 0 < R_EARTH + 600) by (unfold R_EARTH; lra).
  split.
  - destruct (designer_script_outcome 500 600 500 5 500 9 6 90
                Hr Hr' Hr Hr ltac:(lra)) as [_ Hdone].
    destruct Hdone as (plan & dv & s & cfg & _ & _ & _ & _ & E & Hp).
    + exists 400%Z.
      assert (Hin : In 400%Z altitude_grid)
        by (apply altitude_grid_spec; split; [lia | reflexivity]).
      split; [exact Hin |].
      apply grid_feasible_slow; [| exact Hin].
      rewrite delta_ltan_deg_default, Rabs_left by lra; lra.
    + exists cfg; split; [exact E | apply Hp; lra].
  - destruct (designer_script_outcome 500 600 500 5 500 0 12 10
                Hr Hr' Hr Hr ltac:(lra)) as [[_ Hfail] _].
    apply Hfail; intros h Hin.
    apply grid_infeasible_fast; [| exact Hin].
    rewrite delta_ltan_deg_half_turn, Rabs_left by lra; lra.
Defined.
